(** * Tune-Central: the recommendation service ([app.py]) and the catalog
      build script ([fix_database.py])

    A shallow embedding of the two Python programs and the properties of
    their recommendation, mood, trending and catalog-build logic.

    Conventions of the embedding:
    - a pandas column or Python list is a [list]; a row position is a [nat];
    - a numeric cell (similarity score, audio feature, popularity) is a
      rational [Q]: every finite float is one, and the programs only
      compare these cells.  Missing cells and NaN are outside the model;
    - a decimal literal of the source ([0.7], [120]) is read as the exact
      rational it denotes;
    - an integer argument that Python lets range over negative values
      ([top_n]) is a [Z];
    - an exception that escapes a function is an explicit result
      constructor. *)

From Stdlib Require Import List String Ascii Bool Arith ZArith QArith Lia.
From Stdlib Require Import Sorting.Sorted Sorting.Permutation.
From Stdlib Require OrderedTypeEx.
From Stdlib Require Import Lqa.
Import ListNotations.

Local Open Scope string_scope.

(* ================================================================== *)
(** * Python and pandas primitives used by the programs *)
(* ================================================================== *)

Module Py.

(** ** Comparison of numeric cells *)

(** [x < y] on numbers, as a boolean. *)
Definition Qltb (x y : Q) : bool :=
  match (x ?= y)%Q with Lt => true | _ => false end.

(** [int(x)]: truncation toward zero. *)
Definition int (x : Q) : Z := Z.quot (Qnum x) (Z.pos (Qden x)).

(** ** Slicing: [l[start:stop]] with Python's treatment of negative and
       out-of-range bounds *)

Definition adjust_index (len i : Z) : Z :=
  if (i <? 0)%Z then Z.max 0 (i + len) else Z.min i len.

Definition slice {A} (l : list A) (start stop : Z) : list A :=
  let len := Z.of_nat (List.length l) in
  let a := adjust_index len start in
  let b := adjust_index len stop in
  firstn (Z.to_nat (b - a)) (skipn (Z.to_nat a) l).

(** ** [enumerate] *)

Fixpoint enumerate_from {A} (n : nat) (l : list A) : list (nat * A) :=
  match l with
  | [] => []
  | x :: l' => (n, x) :: enumerate_from (S n) l'
  end.

Definition enumerate {A} (l : list A) : list (nat * A) := enumerate_from 0 l.

(** ** [sorted(l, key=..., reverse=...)]

    Python's sort is stable and compares keys with [<] only.  For keys that
    are totally ordered the output of a stable sort is determined by its
    input, so a stable insertion sort computes the same list as the
    interpreter's merge sort.  With [reverse=True] the interpreter reverses
    the list, sorts it ascending, and reverses the result, which is how
    equal keys keep their original order in a descending sort. *)

Section Sorted.
Context {A K : Type}.
Variable key : A -> K.
Variable ltb : K -> K -> bool.

(** [x] goes after every element whose key is strictly smaller, and
    before the first one whose key is not. *)
Fixpoint insert (x : A) (l : list A) : list A :=
  match l with
  | [] => [x]
  | y :: l' => if ltb (key y) (key x) then y :: insert x l' else x :: l
  end.

Fixpoint sort_ascending (l : list A) : list A :=
  match l with
  | [] => []
  | x :: l' => insert x (sort_ascending l')
  end.

Definition sorted (reverse : bool) (l : list A) : list A :=
  if reverse then rev (sort_ascending (rev l)) else sort_ascending l.

(** What a stable sort establishes, given a relation [tie] that holds
    between [a] and [b] when [a] stood before [b] in the input.
    Ascending: keys do not decrease, and elements with equivalent keys
    keep their input order.  Descending ([reverse=True]): keys do not
    increase, and elements with equivalent keys keep their input order. *)
Variable tie : A -> A -> Prop.

Definition ascending (a b : A) : Prop :=
  ltb (key b) (key a) = false /\ (ltb (key a) (key b) = true \/ tie a b).

Definition descending (a b : A) : Prop :=
  ltb (key a) (key b) = false /\ (ltb (key b) (key a) = true \/ tie a b).
End Sorted.

(** ** pandas [Series]: an ordered list of (label, value) entries *)

Definition Series (L V : Type) : Type := list (L * V).

Section SeriesOps.
Context {L V : Type}.
Variable L_eqb : L -> L -> bool.
Variable V_eqb : V -> V -> bool.

(** [pd.Series(values, index=labels)] *)
Definition make_series (values : list V) (labels : list L) : Series L V :=
  combine labels values.

(** [s.drop_duplicates()]: an entry is dropped when its _value_ already
    occurred earlier; labels play no part. *)
Fixpoint drop_duplicates_from (seen : list V) (s : Series L V) : Series L V :=
  match s with
  | [] => []
  | (l, v) :: s' =>
      if existsb (V_eqb v) seen then drop_duplicates_from seen s'
      else (l, v) :: drop_duplicates_from (v :: seen) s'
  end.

Definition drop_duplicates (s : Series L V) : Series L V :=
  drop_duplicates_from [] s.

(** The values stored under label [k], in order.  [s[k]] raises
    [KeyError] when there is none, is a scalar when there is one, and is
    itself a Series when there are several. *)
Definition loc_all (s : Series L V) (k : L) : list V :=
  map snd (filter (fun e => L_eqb (fst e) k) s).
End SeriesOps.

(** [col.iloc[positions]]: the entries at the given positions, labelled by
    their position; [None] stands for [IndexError]. *)
Fixpoint iloc {V} (col : list V) (positions : list nat) : option (Series nat V) :=
  match positions with
  | [] => Some []
  | p :: ps =>
      match nth_error col p, iloc col ps with
      | Some v, Some r => Some ((p, v) :: r)
      | _, _ => None
      end
  end.

(** ** Column aggregates used by the trending report *)

(** [col.idxmax()]: the position of the first maximal cell; [None] stands
    for the [ValueError] raised on an empty column. *)
Fixpoint idxmax_from (best_i : nat) (best : Q) (i : nat) (col : list Q) : nat :=
  match col with
  | [] => best_i
  | x :: col' =>
      if Qltb best x then idxmax_from i x (S i) col'
      else idxmax_from best_i best (S i) col'
  end.

Definition idxmax (col : list Q) : option nat :=
  match col with
  | [] => None
  | x :: col' => Some (idxmax_from 0 x 1 col')
  end.

(** Number of cells of a text column equal to [v]. *)
Definition occurrences (v : string) (col : list string) : nat :=
  List.length (filter (String.eqb v) col).

(** The distinct values of a column, in order of first occurrence. *)
Fixpoint unique_from (seen : list string) (col : list string) : list string :=
  match col with
  | [] => []
  | v :: col' =>
      if existsb (String.eqb v) seen then unique_from seen col'
      else v :: unique_from (v :: seen) col'
  end.

Definition unique (col : list string) : list string := unique_from [] col.

(** [col.value_counts()]: each distinct value with its number of
    occurrences, most frequent first. *)
Definition value_counts (col : list string) : Series string nat :=
  sorted snd Nat.ltb true (map (fun v => (v, occurrences v col)) (unique col)).

(** [col.mode()]: the values whose number of occurrences is the greatest,
    which pandas returns sorted in ascending order (for text, the order of
    [<] on strings: character by character, by code point). *)
Definition mode (col : list string) : list string :=
  let counts := map (fun v => (v, occurrences v col)) (unique col) in
  let highest := fold_right Nat.max 0%nat (map snd counts) in
  let modes := map fst (filter (fun e => Nat.eqb (snd e) highest) counts) in
  sorted (fun v => v) String.ltb false modes.

End Py.

(* ================================================================== *)
(** * Data model *)
(* ================================================================== *)

(** A row of the original dataset ([datasetmusic.csv]). *)
Record track := {
  name : string;
  artists : string;
  valence : Q;
  energy : Q;
  danceability : Q;
  tempo : Q;
  speechiness : Q;
  liveness : Q;
  popularity : Q
}.

(** A row of the [songs] table and of [api_data.csv]: a track with the two
    columns the build script adds. *)
Record song := {
  song_track :> track;
  play_count : Z;
  title : string
}.

(** The double-quote character, for messages that contain it. *)
Definition dquote : string := String (ascii_of_nat 34) EmptyString.

(** A Flask response: a JSON body and an HTTP status. *)
Inductive json :=
| JError (msg : string)
| JException                     (* [{'error': str(e)}], text from a library *)
| JRecommendations (titles : list string)
| JMoodRecommendations (rows : list (string * string * string))
| JTrending (song_name song_artists : string) (song_popularity : Z)
            (artist : string) (song_count_in_dataset : Z)
| Unhandled.                     (* exception escaping the view function *)

Definition response : Type := json * nat.

(* ================================================================== *)
(** * [app.py] *)
(* ================================================================== *)

Module App.

(** ** Section 2 of the file: state loaded once at startup *)

Record model := {
  df_scaled : list song;
  similarity_matrix : list (list Q)
}.

(** A file that is absent is [None]; reading it raises
    [FileNotFoundError], which the [except] clause turns into [exit()]. *)
Definition load (api_data_csv : option (list song))
                (similarity_matrix_npy : option (list (list Q)))
  : option model :=
  match api_data_csv with
  | None => None
  | Some df =>
      match similarity_matrix_npy with
      | None => None
      | Some sm => Some {| df_scaled := df; similarity_matrix := sm |}
      end
  end.

(** [indices = pd.Series(df_scaled.index, index=df_scaled['title'])
               .drop_duplicates()] *)
Definition indices (m : model) : Py.Series string nat :=
  Py.drop_duplicates Nat.eqb
    (Py.make_series (seq 0 (List.length (df_scaled m)))
                    (map title (df_scaled m))).

(** ** Section 3: [get_recommendations] *)

(** What the function hands back: the error string, the Series of titles,
    or an exception. *)
Inductive recommendations :=
| ErrorString (msg : string)
| Titles (recs : Py.Series nat string)
| Raises.

Definition not_found_message (song_title : string) : string :=
  "Error: Song '" ++ song_title ++ "' not found in the dataset.".

(** Steps 2 and 3: the (position, score) pairs of a matrix row, sorted. *)
Definition ranked (row : list Q) : list (nat * Q) :=
  let sim_scores := Py.enumerate row in
  Py.sorted snd Py.Qltb true sim_scores.

(** A title that labels several rows makes [indices[song_title]] a Series
    instead of a position; the rows it selects then become the sort keys,
    and comparing two of them raises. *)
Definition get_recommendations (m : model) (song_title : string) (top_n : Z)
  : recommendations :=
  match Py.loc_all String.eqb (indices m) song_title with
  | [] => ErrorString (not_found_message song_title)
  | [idx] =>
      match nth_error (similarity_matrix m) idx with
      | None => Raises
      | Some row =>
          let sim_scores := ranked row in
          let sim_scores := Py.slice sim_scores 1 (top_n + 1) in
          let song_indices := map fst sim_scores in
          match Py.iloc (map title (df_scaled m)) song_indices with
          | Some recs => Titles recs
          | None => Raises
          end
      end
  | _ :: _ :: _ => Raises
  end.

(** The call with [top_n] left out: [def get_recommendations(song_title,
    top_n=5)]. *)
Definition top_n_default : Z := 5.

Definition get_recommendations_default (m : model) (song_title : string)
  : recommendations :=
  get_recommendations m song_title top_n_default.

(** ** Section 4: the [/recommend] endpoint *)

Definition recommend_songs (m : model) (song : option string) : response :=
  match song with
  | None | Some EmptyString =>
      (JError ("A " ++ dquote ++ "song" ++ dquote
               ++ " query parameter is required."), 400%nat)
  | Some song_title =>
      match get_recommendations m song_title 5 with
      | ErrorString recs => (JError recs, 404%nat)
      | Titles recs => (JRecommendations (map snd recs), 200%nat)
      | Raises => (Unhandled, 500%nat)
      end
  end.

(** ** Section 5: the [/trending] endpoint

    Every exception raised inside the [try] block becomes a 500 response
    whose body carries the text of the exception. *)

Definition get_trending (m : model) : response :=
  let df := df_scaled m in
  match Py.idxmax (map (fun s : song => popularity s) df) with
  | None => (JException, 500%nat)
  | Some popular_song_idx =>
      match nth_error df popular_song_idx with
      | None => (JException, 500%nat)
      | Some popular_song =>
          let artists_col := map (fun s : song => artists s) df in
          match Py.mode artists_col with
          | [] => (JException, 500%nat)
          | most_frequent_artist_name :: _ =>
              match Py.loc_all String.eqb (Py.value_counts artists_col)
                               most_frequent_artist_name with
              | [artist_song_count] =>
                  (JTrending (name popular_song) (artists popular_song)
                             (Py.int (popularity popular_song))
                             most_frequent_artist_name
                             (Z.of_nat artist_song_count), 200%nat)
              | _ => (JException, 500%nat)
              end
          end
      end
  end.

(** ** Section 7: the [/recommend_mood] endpoint *)

(** The fragment of SQL the mood profiles are written in: a [WHERE] clause
    is a conjunction ([AND]) of comparisons of a column with a literal. *)
Inductive column :=
| Valence | Energy | Danceability | Tempo | Speechiness | Liveness.

Inductive operator := OpGt | OpLt | OpGe | OpLe.

Definition condition : Type := column * operator * Q.
Definition where_clause : Type := list condition.

(** The [if]/[elif] chain; [None] is the final [else], which returns the
    invalid-mood response. *)
Definition query_filter (mood : string) : option where_clause :=
  if mood =? "happy" then
    Some [(Valence, OpGt, 7#10); (Energy, OpGt, 6#10); (Danceability, OpGt, 5#10)]
  else if mood =? "sad" then
    Some [(Valence, OpLt, 3#10); (Energy, OpLt, 4#10); (Tempo, OpLt, 100#1)]
  else if mood =? "energetic" then
    Some [(Energy, OpGt, 8#10); (Tempo, OpGt, 120#1)]
  else if mood =? "calm" then
    Some [(Energy, OpLt, 3#10); (Tempo, OpLt, 100#1); (Valence, OpGt, 4#10)]
  else if mood =? "romantic" then
    Some [(Valence, OpGt, 6#10); (Energy, OpLt, 6#10); (Speechiness, OpLt, 8#100)]
  else if mood =? "angry" then
    Some [(Energy, OpGt, 8#10); (Valence, OpLt, 3#10); (Tempo, OpGt, 110#1)]
  else if mood =? "nostalgic" then
    Some [(Valence, OpGt, 5#10); (Energy, OpLt, 5#10); (Tempo, OpLt, 110#1)]
  else if mood =? "focused" then
    Some [(Speechiness, OpLt, 5#100); (Energy, OpLt, 3#10); (Liveness, OpLt, 1#10)]
  else if mood =? "chill" then
    Some [(Energy, OpLt, 4#10); (Tempo, OpLt, 110#1); (Liveness, OpLt, 2#10)]
  else if mood =? "workout" then
    Some [(Energy, OpGt, 75#100); (Tempo, OpGt, 120#1); (Danceability, OpGt, 6#10)]
  else if mood =? "party" then
    Some [(Energy, OpGt, 7#10); (Danceability, OpGt, 7#10); (Valence, OpGt, 6#10)]
  else None.

Definition invalid_mood_response : response :=
  (JError "Invalid mood provided.", 400%nat).

(** Evaluation of the query by the database. *)
Definition cell (c : column) (s : song) : Q :=
  match c with
  | Valence => valence s
  | Energy => energy s
  | Danceability => danceability s
  | Tempo => tempo s
  | Speechiness => speechiness s
  | Liveness => liveness s
  end.

Definition holds (s : song) (c : condition) : bool :=
  let '(col, op, literal) := c in
  match op with
  | OpGt => Py.Qltb literal (cell col s)
  | OpLt => Py.Qltb (cell col s) literal
  | OpGe => negb (Py.Qltb (cell col s) literal)
  | OpLe => negb (Py.Qltb literal (cell col s))
  end.

(** [SELECT name, artists, title FROM songs WHERE ... ORDER BY popularity
    DESC LIMIT 5].  SQL leaves the order of rows of equal popularity open;
    the model keeps them in table order. *)
Definition select_songs (w : where_clause) (songs : list song)
  : list (string * string * string) :=
  let matching := filter (fun s => forallb (holds s) w) songs in
  let ordered := Py.sorted (fun s : song => popularity s) Py.Qltb true matching in
  map (fun s : song => (name s, artists s, title s)) (firstn 5 ordered).

(** The [songs] table of [music.db] is [None] when the query raises (the
    file or the table is missing). *)
Definition recommend_mood (mood : option string) (songs : option (list song))
  : response :=
  match mood with
  | None | Some EmptyString =>
      (JError ("A " ++ dquote ++ "mood" ++ dquote
               ++ " query parameter is required."), 400%nat)
  | Some mood =>
      match query_filter mood with
      | None => invalid_mood_response
      | Some w =>
          match songs with
          | None => (JException, 500%nat)
          | Some rows => (JMoodRecommendations (select_songs w rows), 200%nat)
          end
      end
  end.

End App.

(* ================================================================== *)
(** * [fix_database.py] *)
(* ================================================================== *)

Module FixDatabase.

(** [df.drop_duplicates(subset=['name', 'artists'], keep='first')] *)
Definition same_name_artists (a b : track) : bool :=
  (name a =? name b) && (artists a =? artists b).

Fixpoint drop_duplicates_from (seen : list track) (df : list track) : list track :=
  match df with
  | [] => []
  | r :: df' =>
      if existsb (same_name_artists r) seen then drop_duplicates_from seen df'
      else r :: drop_duplicates_from (r :: seen) df'
  end.

Definition drop_duplicates (df : list track) : list track :=
  drop_duplicates_from [] df.

Definition popularity_threshold : Q := 30#1.

(** [df_processed[df_processed['popularity'] > popularity_threshold]] *)
Definition filter_popularity (df : list track) : list track :=
  filter (fun r => Py.Qltb popularity_threshold (popularity r)) df.

(** The [play_count] and [title] columns. *)
Definition add_columns (r : track) : song :=
  {| song_track := r;
     play_count := 0;
     title := name r ++ " by " ++ artists r |}.

Fixpoint distinct (l : list string) : bool :=
  match l with
  | [] => true
  | x :: l' => negb (existsb (String.eqb x) l') && distinct l'
  end.

(** [df_processed.to_sql('songs', ..., dtype={'title': 'TEXT PRIMARY
    KEY'})]: the table is created, and the rows are inserted in one
    transaction, which the primary key rolls back when two rows have the
    same title; the script then prints the error and goes on. *)
Definition to_sql (df_processed : list song) : list song :=
  if distinct (map title df_processed) then df_processed else [].

(** The script, from the dataset file to the contents of the [songs] table.
    Without the dataset file the script exits before it creates a
    database. *)
Definition songs_table (datasetmusic_csv : option (list track))
  : option (list song) :=
  match datasetmusic_csv with
  | None => None
  | Some df =>
      let df_processed := drop_duplicates df in
      let df_processed := filter_popularity df_processed in
      let df_processed := map add_columns df_processed in
      Some (to_sql df_processed)
  end.

End FixDatabase.


(* ================================================================== *)
(** * Vocabulary of the specification *)
(* ================================================================== *)

Module Spec.
Import App.

(** ** The loaded state *)

Definition titles (m : model) : list string := map title (df_scaled m).

Definition catalog_size (m : model) : nat := List.length (df_scaled m).

(** The invariants the data model gives the Catalog and the Similarity
    Index: titles are unique, and the matrix is square with the dimension
    of the Catalog. *)
Definition square_of_size (n : nat) (sm : list (list Q)) : Prop :=
  List.length sm = n /\ Forall (fun row => List.length row = n) sm.

Definition well_formed (m : model) : Prop :=
  NoDup (titles m) /\ square_of_size (catalog_size m) (similarity_matrix m).

(** The loader as the specification describes it (4.1): it refuses a
    missing artifact and a matrix that is not square of the Catalog's
    size. *)
Definition validated_load_fails (csv : option (list song))
                                (npy : option (list (list Q))) : Prop :=
  match csv, npy with
  | Some df, Some sm => ~ square_of_size (List.length df) sm
  | _, _ => True
  end.

(** ** Ranking *)

(** [a] ranks before [b]: a greater score, or the same score and an
    earlier position. *)
Definition ranks_before (a b : nat * Q) : Prop :=
  (snd b < snd a)%Q \/ ((snd a == snd b)%Q /\ (fst a < fst b)%nat).

(** ** Moods *)

Inductive mood :=
| Happy | Sad | Energetic | Calm | Romantic | Angry
| Nostalgic | Focused | Chill | Workout | Party.

Definition all_moods : list mood :=
  [Happy; Sad; Energetic; Calm; Romantic; Angry;
   Nostalgic; Focused; Chill; Workout; Party].

Definition mood_name (md : mood) : string :=
  match md with
  | Happy => "happy"
  | Sad => "sad"
  | Energetic => "energetic"
  | Calm => "calm"
  | Romantic => "romantic"
  | Angry => "angry"
  | Nostalgic => "nostalgic"
  | Focused => "focused"
  | Chill => "chill"
  | Workout => "workout"
  | Party => "party"
  end.

Definition mood_labels : list string := map mood_name all_moods.

(** The predicate of each mood: a conjunction of strict inequalities. *)
Definition mood_predicate (md : mood) (s : song) : Prop :=
  match md with
  | Happy => 7#10 < valence s /\ 6#10 < energy s /\ 5#10 < danceability s
  | Sad => valence s < 3#10 /\ energy s < 4#10 /\ tempo s < 100#1
  | Energetic => 8#10 < energy s /\ 120#1 < tempo s
  | Calm => energy s < 3#10 /\ tempo s < 100#1 /\ 4#10 < valence s
  | Romantic => 6#10 < valence s /\ energy s < 6#10 /\ speechiness s < 8#100
  | Angry => 8#10 < energy s /\ valence s < 3#10 /\ 110#1 < tempo s
  | Nostalgic => 5#10 < valence s /\ energy s < 5#10 /\ tempo s < 110#1
  | Focused => speechiness s < 5#100 /\ energy s < 3#10 /\ liveness s < 1#10
  | Chill => energy s < 4#10 /\ tempo s < 110#1 /\ liveness s < 2#10
  | Workout => 75#100 < energy s /\ 120#1 < tempo s /\ 6#10 < danceability s
  | Party => 7#10 < energy s /\ 7#10 < danceability s /\ 6#10 < valence s
  end%Q.

Definition strict (c : condition) : Prop :=
  let '(_, op, _) := c in op = OpGt \/ op = OpLt.

Definition project (s : song) : string * string * string :=
  (name s, artists s, title s).

(** ** Most frequent artist *)

(** Position of the first cell equal to [v] (the length of the column when
    there is none). *)
Fixpoint first_position (v : string) (col : list string) : nat :=
  match col with
  | [] => 0
  | x :: col' => if v =? x then 0 else S (first_position v col')
  end.

Definition most_frequent (col : list string) (a : string) : Prop :=
  In a col /\ forall b, (Py.occurrences b col <= Py.occurrences a col)%nat.

(** Tie-break by first occurrence: no value that is as frequent occurs
    first at an earlier position. *)
Definition earliest_among_ties (col : list string) (a : string) : Prop :=
  forall b, In b col -> Py.occurrences b col = Py.occurrences a col ->
            (first_position a col <= first_position b col)%nat.

(** Tie-break by value: no value that is as frequent is smaller in the
    order of [<] on strings. *)
Definition least_among_ties (col : list string) (a : string) : Prop :=
  forall b, In b col -> Py.occurrences b col = Py.occurrences a col ->
            String.ltb b a = false.

Definition artists_column (m : model) : list string :=
  map (fun s : song => artists s) (df_scaled m).

(** The artist and count a trending response reports. *)
Definition reported_artist (r : response) : option (string * Z) :=
  match r with
  | (JTrending _ _ _ a c, _) => Some (a, c)
  | _ => None
  end.

(** ** Sample data *)

Definition sample_track (n a : string) (e t p : Q) : track :=
  {| name := n; artists := a; valence := 5#10; energy := e;
     danceability := 5#10; tempo := t; speechiness := 5#100;
     liveness := 1#10; popularity := p |}.

Definition sample_song (n a : string) (e t p : Q) : song :=
  FixDatabase.add_columns (sample_track n a e t p).

(** Three songs with distinct feature vectors. *)
Definition trio : model :=
  {| df_scaled := [sample_song "A" "X" (9#10) (130#1) (10#1);
                   sample_song "B" "Y" (2#10) (90#1) (50#1);
                   sample_song "C" "Z" (5#10) (100#1) (40#1)];
     similarity_matrix := [[1; 1#2; 1#3]; [1#2; 1; 1#2]; [1#3; 1#2; 1]]%Q |}.

(** Two songs with the same feature vector: every similarity is 1. *)
Definition twins : model :=
  {| df_scaled := [sample_song "A" "X" (9#10) (130#1) (10#1);
                   sample_song "B" "Y" (9#10) (130#1) (50#1)];
     similarity_matrix := [[1; 1]; [1; 1]]%Q |}.

(** Two songs whose artists are not in alphabetical order. *)
Definition duo : model :=
  {| df_scaled := [sample_song "A" "Y" (9#10) (130#1) (10#1);
                   sample_song "B" "X" (2#10) (90#1) (50#1)];
     similarity_matrix := [[1; 0]; [0; 1]]%Q |}.

(** Two songs loaded with a matrix of the wrong dimension. *)
Definition mismatched_csv : list song :=
  [sample_song "A" "X" (9#10) (130#1) (10#1);
   sample_song "B" "Y" (2#10) (90#1) (50#1)].

Definition mismatched_npy : list (list Q) := [[1]]%Q.

(** Whether the query the endpoint runs for [mood] selects the row [s]. *)
Definition matches (mood : string) (s : song) : bool :=
  match query_filter mood with
  | Some w => forallb (holds s) w
  | None => false
  end.

Definition high_energy_moods : list mood := [Energetic; Angry; Workout; Party].

Definition low_energy_moods : list mood :=
  [Sad; Calm; Romantic; Nostalgic; Focused; Chill].

(** The state [load] builds from the two mismatched files. *)
Definition mismatched : model :=
  {| df_scaled := mismatched_csv; similarity_matrix := mismatched_npy |}.

(** Two different (name, artists) pairs that give the same title. *)
Definition colliding_csv : list track :=
  [sample_track "A by B" "C" (9#10) (130#1) (40#1);
   sample_track "A" "B by C" (2#10) (90#1) (50#1)].

(** A song listed twice: first with a low popularity, then with a high
    one. *)
Definition shadowed_csv : list track :=
  [sample_track "A" "X" (9#10) (130#1) (10#1);
   sample_track "A" "X" (9#10) (130#1) (80#1);
   sample_track "B" "Y" (2#10) (90#1) (50#1)].

End Spec.

(* ================================================================== *)
(** * Facts about the primitives *)
(* ================================================================== *)

Module PyFacts.
Import Py.

(** ** Numeric comparison *)

Lemma Qltb_lt (x y : Q) : Qltb x y = true <-> (x < y)%Q.
Proof.
  unfold Qltb. rewrite Qlt_alt.
  destruct (x ?= y)%Q; split; congruence.
Qed.

Lemma Qltb_ge (x y : Q) : Qltb x y = false <-> (y <= x)%Q.
Proof.
  split; intro H.
  - apply Qnot_lt_le. intro L. apply Qltb_lt in L. congruence.
  - destruct (Qltb x y) eqn:E; [|reflexivity].
    apply Qltb_lt in E. exfalso. exact (Qle_not_lt _ _ H E).
Qed.

Lemma Qltb_asym (x y : Q) : Qltb x y = true -> Qltb y x = false.
Proof. rewrite Qltb_lt, Qltb_ge. apply Qlt_le_weak. Qed.

Lemma Qltb_ge_trans (x y z : Q) :
  Qltb x y = false -> Qltb y z = false -> Qltb x z = false.
Proof. rewrite !Qltb_ge. intros H1 H2. exact (Qle_trans _ _ _ H2 H1). Qed.

(** ** The stable sort *)

Section SortFacts.
Context {A K : Type}.
Variable key : A -> K.
Variable ltb : K -> K -> bool.
Hypothesis ltb_asym : forall a b, ltb a b = true -> ltb b a = false.
Hypothesis ltb_ge_trans :
  forall a b c, ltb a b = false -> ltb b c = false -> ltb a c = false.

Variable tie : A -> A -> Prop.

Lemma insert_perm (x : A) (l : list A) :
  Permutation (insert key ltb x l) (x :: l).
Proof.
  induction l as [|y l IH]; simpl; [reflexivity|].
  destruct (ltb (key y) (key x)); [|reflexivity].
  rewrite IH. apply perm_swap.
Qed.

Lemma sort_ascending_perm (l : list A) :
  Permutation (sort_ascending key ltb l) l.
Proof.
  induction l as [|x l IH]; simpl; [reflexivity|].
  rewrite insert_perm. now constructor.
Qed.

Lemma sorted_perm (reverse : bool) (l : list A) :
  Permutation (sorted key ltb reverse l) l.
Proof.
  unfold sorted. destruct reverse; [|apply sort_ascending_perm].
  rewrite <- Permutation_rev, sort_ascending_perm.
  symmetry. apply Permutation_rev.
Qed.

Lemma insert_ascending (x : A) (l : list A) :
  StronglySorted (ascending key ltb tie) l -> Forall (tie x) l ->
  StronglySorted (ascending key ltb tie) (insert key ltb x l).
Proof.
  induction 1 as [|y l Hs IH Hy]; intro Ht; simpl.
  - repeat constructor.
  - apply Forall_cons_iff in Ht as [Hxy Hxl].
    destruct (ltb (key y) (key x)) eqn:E.
    + constructor; [auto|].
      eapply Permutation_Forall; [symmetry; apply insert_perm|].
      constructor; [|assumption].
      split; [apply ltb_asym|left]; assumption.
    + constructor; [constructor; assumption|].
      constructor; [split; auto|].
      rewrite Forall_forall in *. intros z Hz. split; [|auto].
      destruct (Hy z Hz) as [Hzy _]. eauto.
Qed.

Lemma sort_ascending_sorted (l : list A) :
  StronglySorted tie l -> StronglySorted (ascending key ltb tie) (sort_ascending key ltb l).
Proof.
  induction 1 as [|x l Hs IH Hx]; simpl; [constructor|].
  apply insert_ascending; [assumption|].
  eapply Permutation_Forall; [symmetry; apply sort_ascending_perm|assumption].
Qed.
End SortFacts.

Lemma StronglySorted_snoc {A} (R : A -> A -> Prop) (l : list A) (x : A) :
  StronglySorted R l -> Forall (fun y => R y x) l -> StronglySorted R (l ++ [x]).
Proof.
  induction 1 as [|a l Hs IH Ha]; intro Hx; simpl.
  - repeat constructor.
  - apply Forall_cons_iff in Hx as [Hax Hlx].
    constructor; [auto|].
    apply Forall_app. split; [assumption|repeat constructor; assumption].
Qed.

Lemma StronglySorted_rev {A} (R : A -> A -> Prop) (l : list A) :
  StronglySorted R l -> StronglySorted (fun a b => R b a) (rev l).
Proof.
  induction 1 as [|a l Hs IH Ha]; simpl; [constructor|].
  apply StronglySorted_snoc; [assumption|].
  apply Forall_rev. assumption.
Qed.

Lemma sorted_reverse_sorted {A K} (key : A -> K) (ltb : K -> K -> bool)
      (tie : A -> A -> Prop) (l : list A) :
  (forall a b, ltb a b = true -> ltb b a = false) ->
  (forall a b c, ltb a b = false -> ltb b c = false -> ltb a c = false) ->
  StronglySorted tie l ->
  StronglySorted (descending key ltb tie) (sorted key ltb true l).
Proof.
  intros Hasym Htrans Hl. unfold sorted.
  apply StronglySorted_rev in Hl.
  apply (@sort_ascending_sorted _ _ key ltb Hasym Htrans) in Hl.
  apply StronglySorted_rev in Hl. exact Hl.
Qed.

(** ** [enumerate] *)

Lemma enumerate_from_length {A} (l : list A) (n : nat) :
  List.length (enumerate_from n l) = List.length l.
Proof. revert n. induction l; simpl; intros; [reflexivity|now rewrite IHl]. Qed.

Lemma enumerate_from_bound {A} (l : list A) (n : nat) :
  Forall (fun e => (n <= fst e < n + List.length l)%nat) (enumerate_from n l).
Proof.
  revert n. induction l as [|x l IH]; simpl; intro n; constructor.
  - simpl. lia.
  - eapply Forall_impl; [|apply (IH (S n))]. simpl. intros; lia.
Qed.

Lemma enumerate_from_increasing {A} (l : list A) (n : nat) :
  StronglySorted (fun a b => (fst a < fst b)%nat) (enumerate_from n l).
Proof.
  revert n. induction l as [|x l IH]; simpl; intro n; constructor.
  - apply IH.
  - eapply Forall_impl; [|apply (enumerate_from_bound l (S n))].
    simpl. intros; lia.
Qed.

Lemma enumerate_from_positions {A} (l : list A) (n : nat) :
  map fst (enumerate_from n l) = seq n (List.length l).
Proof.
  revert n. induction l as [|x l IH]; simpl; intro n; [reflexivity|].
  now rewrite IH.
Qed.

Lemma enumerate_from_In {A} (l : list A) (n j : nat) (x : A) :
  In (j, x) (enumerate_from n l)
  <-> (n <= j)%nat /\ nth_error l (j - n) = Some x.
Proof.
  revert n. induction l as [|y l IH]; simpl; intro n.
  - split; [tauto|]. intros [_ H]. destruct (j - n)%nat; discriminate.
  - rewrite IH. split.
    + intros [E|[H1 H2]].
      * injection E as <- <-. split; [lia|]. now rewrite Nat.sub_diag.
      * split; [lia|]. replace (j - n)%nat with (S (j - S n)) by lia. exact H2.
    + intros [H1 H2]. destruct (j - n)%nat as [|k] eqn:E.
      * left. injection H2 as <-. f_equal. lia.
      * right. split; [lia|]. replace (j - S n)%nat with k by lia. exact H2.
Qed.

End PyFacts.

Module SliceFacts.
Import Py.

Lemma firstn_In {A} (n : nat) (l : list A) (x : A) : In x (firstn n l) -> In x l.
Proof.
  intro H. rewrite <- (firstn_skipn n l). apply in_or_app. now left.
Qed.

Lemma skipn_In {A} (n : nat) (l : list A) (x : A) : In x (skipn n l) -> In x l.
Proof.
  intro H. rewrite <- (firstn_skipn n l). apply in_or_app. now right.
Qed.

Lemma slice_In {A} (l : list A) (start stop : Z) (x : A) :
  In x (slice l start stop) -> In x l.
Proof. unfold slice. intro H. eapply skipn_In, firstn_In, H. Qed.

(** [l[1:stop]] is a part of the tail of [l]. *)
Lemma slice_from_1_tail {A} (x : A) (l : list A) (stop : Z) (y : A) :
  In y (slice (x :: l) 1 stop) -> In y l.
Proof.
  unfold slice. intro H. apply firstn_In in H.
  replace (Z.to_nat (adjust_index (Z.of_nat (List.length (x :: l))) 1)) with 1%nat in H.
  - exact H.
  - unfold adjust_index. simpl List.length.
    destruct (1 <? 0)%Z eqn:E; lia.
Qed.

Lemma slice_length {A} (l : list A) (start stop : Z) :
  let len := Z.of_nat (List.length l) in
  List.length (slice l start stop)
  = Z.to_nat (adjust_index len stop - adjust_index len start).
Proof.
  unfold slice. cbv zeta.
  rewrite length_firstn, length_skipn.
  unfold adjust_index.
  destruct (stop <? 0)%Z eqn:E1; destruct (start <? 0)%Z eqn:E2; lia.
Qed.

(** [l[1:n+1]] for a positive [n]: [n] elements, or all but the first. *)
Lemma slice_top_length {A} (l : list A) (n : Z) :
  (0 < n)%Z ->
  List.length (slice l 1 (n + 1)) = Nat.min (Z.to_nat n) (List.length l - 1).
Proof.
  intro Hn. rewrite slice_length. unfold adjust_index.
  destruct (n + 1 <? 0)%Z eqn:E1; destruct (1 <? 0)%Z eqn:E2; lia.
Qed.

(** [l[1:n+1]] for [n <= 0]: empty for 0 and -1; below that the stop
    counts from the end. *)
Lemma slice_nonpositive_length {A} (l : list A) (n : Z) :
  (n <= 0)%Z ->
  List.length (slice l 1 (n + 1))
  = if (n <? -1)%Z then Z.to_nat (Z.of_nat (List.length l) + n) else 0%nat.
Proof.
  intro Hn. rewrite slice_length. unfold adjust_index.
  destruct (n + 1 <? 0)%Z eqn:E1; destruct (1 <? 0)%Z eqn:E2;
    destruct (n <? -1)%Z eqn:E3; lia.
Qed.

End SliceFacts.

(* ================================================================== *)
(** * The title index *)
(* ================================================================== *)

Module IndexFacts.
Import Py App Spec.

Lemma drop_duplicates_from_In {L V} (V_eqb : V -> V -> bool)
      (s : Series L V) (seen : list V) (e : L * V) :
  In e (drop_duplicates_from V_eqb seen s) -> In e s.
Proof.
  revert seen. induction s as [|[l v] s IH]; simpl; intros seen H; [exact H|].
  destruct (existsb (V_eqb v) seen).
  - right. eapply IH, H.
  - destruct H as [H|H]; [now left|right; eapply IH, H].
Qed.

(** The values of [indices] are the row positions, all different:
    [drop_duplicates] removes nothing, whatever the titles are. *)
Lemma drop_duplicates_positions {L} (labels : list L) (k n : nat) (seen : list nat) :
  Forall (fun v => (v < k)%nat) seen ->
  drop_duplicates_from Nat.eqb seen (combine labels (seq k n))
  = combine labels (seq k n).
Proof.
  revert k n seen. induction labels as [|l labels IH]; intros k n seen Hs; [reflexivity|].
  destruct n as [|n]; [reflexivity|]. simpl.
  replace (existsb (Nat.eqb k) seen) with false.
  - f_equal. apply IH. constructor; [lia|].
    eapply Forall_impl; [|exact Hs]. simpl. intros; lia.
  - symmetry. apply not_true_is_false. intro E.
    apply existsb_exists in E as [v [Hv E]]. apply Nat.eqb_eq in E. subst v.
    rewrite Forall_forall in Hs. specialize (Hs _ Hv). lia.
Qed.

Lemma indices_eq (m : model) :
  indices m = combine (titles m) (seq 0 (catalog_size m)).
Proof.
  unfold indices, drop_duplicates, make_series.
  now rewrite drop_duplicates_positions.
Qed.

Lemma loc_all_absent {V} (s : Series string V) (k : string) :
  ~ In k (map fst s) -> loc_all String.eqb s k = [].
Proof.
  unfold loc_all. induction s as [|[l v] s IH]; simpl; intro H; [reflexivity|].
  destruct (String.eqb_spec l k) as [E|E].
  - exfalso. apply H. now left.
  - apply IH. intro Hin. apply H. now right.
Qed.

Lemma combine_labels {L V} (labels : list L) (values : list V) (l : L) :
  In l (map fst (combine labels values)) -> In l labels.
Proof.
  intro H. apply in_map_iff in H as [[l' v] [E H]]. simpl in E. subst l'.
  eapply in_combine_l, H.
Qed.

(** A title that labels exactly one row is looked up to that row's
    position. *)
Lemma loc_all_unique (labels : list string) (k : nat) (t : string) :
  NoDup labels -> In t labels ->
  exists i, nth_error labels i = Some t
            /\ loc_all String.eqb (combine labels (seq k (List.length labels))) t
               = [(k + i)%nat].
Proof.
  revert k. induction labels as [|x labels IH]; intros k Hnd Hin; [destruct Hin|].
  apply NoDup_cons_iff in Hnd as [Hx Hnd]. simpl.
  unfold loc_all. simpl. destruct (String.eqb_spec x t) as [E|E].
  - subst x. exists 0%nat. split; [reflexivity|]. simpl.
    fold (loc_all String.eqb (combine labels (seq (S k) (List.length labels))) t).
    rewrite loc_all_absent.
    + now rewrite Nat.add_0_r.
    + intro H. apply Hx. eapply combine_labels, H.
  - destruct Hin as [Hin|Hin]; [contradiction|].
    destruct (IH (S k) Hnd Hin) as [i [Hi Hl]].
    exists (S i). split; [exact Hi|].
    unfold loc_all in Hl. rewrite Hl. f_equal. lia.
Qed.

Lemma lookup_absent (m : model) (t : string) :
  ~ In t (titles m) -> loc_all String.eqb (indices m) t = [].
Proof.
  intro H. apply loc_all_absent. intro Hin. apply H.
  apply in_map_iff in Hin as [e [E Hin]].
  apply drop_duplicates_from_In in Hin. subst t.
  eapply combine_labels, in_map, Hin.
Qed.

Lemma lookup_present (m : model) (t : string) :
  NoDup (titles m) -> In t (titles m) ->
  exists idx, nth_error (titles m) idx = Some t
              /\ loc_all String.eqb (indices m) t = [idx].
Proof.
  intros Hnd Hin. rewrite indices_eq.
  unfold catalog_size. rewrite <- (length_map title (df_scaled m)).
  fold (titles m).
  destruct (@loc_all_unique (titles m) 0 t Hnd Hin) as [i [Hi Hl]]. exists i. auto.
Qed.

End IndexFacts.

(* ================================================================== *)
(** * The recommendation engine *)
(* ================================================================== *)

Module Recommend.
Import Py App Spec PyFacts SliceFacts IndexFacts.

Lemma ranked_perm (row : list Q) : Permutation (ranked row) (enumerate row).
Proof. unfold ranked. apply sorted_perm. Qed.

Lemma ranked_length (row : list Q) : List.length (ranked row) = List.length row.
Proof.
  rewrite (Permutation_length (ranked_perm row)).
  apply enumerate_from_length.
Qed.

Lemma ranked_positions (row : list Q) (e : nat * Q) :
  In e (ranked row) -> (fst e < List.length row)%nat.
Proof.
  intro H. apply (Permutation_in _ (ranked_perm row)) in H.
  pose proof (enumerate_from_bound row 0) as B.
  rewrite Forall_forall in B. apply (B e H).
Qed.

Lemma ranked_descending (row : list Q) :
  StronglySorted (descending snd Qltb (fun a b => (fst a < fst b)%nat)) (ranked row).
Proof.
  unfold ranked. apply sorted_reverse_sorted.
  - intros a b. apply Qltb_asym.
  - intros a b c. apply Qltb_ge_trans.
  - apply enumerate_from_increasing.
Qed.

Lemma descending_ranks_before (a b : nat * Q) :
  descending snd Qltb (fun a b => (fst a < fst b)%nat) a b -> ranks_before a b.
Proof.
  unfold descending, ranks_before. intros [Hge [Hlt|Hpos]].
  - left. now apply Qltb_lt.
  - apply Qltb_ge in Hge.
    destruct (Qlt_le_dec (snd b) (snd a)) as [L|L]; [now left|right].
    split; [apply Qle_antisym|]; assumption.
Qed.

Lemma iloc_positions {V} (col : list V) (ps : list nat) :
  Forall (fun p => (p < List.length col)%nat) ps ->
  exists r, iloc col ps = Some r
            /\ map fst r = ps
            /\ Forall (fun e => nth_error col (fst e) = Some (snd e)) r.
Proof.
  induction 1 as [|p ps Hp Hps IH]; simpl.
  - exists []. repeat split. constructor.
  - destruct IH as [r [Hr [Hf Hall]]].
    destruct (nth_error col p) as [v|] eqn:E.
    + rewrite Hr. exists ((p, v) :: r). repeat split.
      * simpl. now rewrite Hf.
      * constructor; assumption.
    + apply nth_error_Some in Hp. contradiction.
Qed.

(** On a well-formed state a title of the Catalog always gets a list: the
    titles at the positions that follow the first entry of the ranking of
    its row. *)
Lemma get_recommendations_present (m : model) (t : string) :
  well_formed m -> In t (titles m) ->
  exists idx row,
    nth_error (titles m) idx = Some t
    /\ nth_error (similarity_matrix m) idx = Some row
    /\ List.length row = catalog_size m
    /\ forall top_n, exists recs,
         get_recommendations m t top_n = Titles recs
         /\ map fst recs = map fst (slice (ranked row) 1 (top_n + 1))
         /\ Forall (fun e => nth_error (titles m) (fst e) = Some (snd e)) recs.
Proof.
  intros [Hnd [Hlen Hrows]] Hin.
  destruct (lookup_present m t Hnd Hin) as [idx [Hidx Hloc]].
  assert (Hlt : (idx < catalog_size m)%nat).
  { unfold catalog_size. rewrite <- (length_map title (df_scaled m)).
    apply nth_error_Some. fold (titles m). congruence. }
  destruct (nth_error (similarity_matrix m) idx) as [row|] eqn:Hrow.
  2:{ exfalso. rewrite <- Hlen in Hlt. apply nth_error_Some in Hlt. contradiction. }
  assert (Hr : List.length row = catalog_size m).
  { rewrite Forall_forall in Hrows. apply Hrows. eapply nth_error_In, Hrow. }
  exists idx, row. repeat split; try assumption.
  intro top_n. unfold get_recommendations. rewrite Hloc, Hrow.
  destruct (@iloc_positions _ (map title (df_scaled m))
              (map fst (slice (ranked row) 1 (top_n + 1)))) as [r [Hi [Hf Hall]]].
  - apply Forall_forall. intros p Hp.
    apply in_map_iff in Hp as [e [E He]]. subst p.
    apply slice_In, ranked_positions in He.
    rewrite length_map. fold (catalog_size m). lia.
  - rewrite Hi. exists r. auto.
Qed.

Lemma ranked_ranks_before (row : list Q) :
  StronglySorted ranks_before (ranked row).
Proof.
  pose proof (ranked_descending row) as H.
  induction H as [|a l Hs IH Ha]; constructor; [assumption|].
  eapply Forall_impl; [|exact Ha]. apply descending_ranks_before.
Qed.

(** C3: for a title of the Catalog, the ranking that Recommend builds from
    the matrix row of that title is a rearrangement of the (position,
    score) pairs of the row in which every entry ranks before all entries
    after it: its score is greater, or the scores are equal and its
    position is lower.  The positions returned are a run of this ranking,
    in its order. *)
Theorem ranking_sorted_stable (m : model) (t : string) :
  well_formed m -> In t (titles m) ->
  exists idx row,
    nth_error (titles m) idx = Some t
    /\ nth_error (similarity_matrix m) idx = Some row
    /\ Permutation (ranked row) (enumerate row)
    /\ StronglySorted ranks_before (ranked row)
    /\ forall top_n, exists recs,
         get_recommendations m t top_n = Titles recs
         /\ map fst recs = map fst (slice (ranked row) 1 (top_n + 1)).
Proof.
  intros Hwf Hin.
  destruct (get_recommendations_present m t Hwf Hin)
    as [idx [row [Ht [Hrow [_ Hall]]]]].
  exists idx, row. repeat split; try assumption.
  - apply ranked_perm.
  - apply ranked_ranks_before.
  - intro top_n. destruct (Hall top_n) as [recs [H1 [H2 _]]]. eauto.
Qed.

Lemma ranking_sorted_stable_witness :
  exists idx row,
    nth_error (titles twins) idx = Some "B by Y"
    /\ nth_error (similarity_matrix twins) idx = Some row
    /\ Permutation (ranked row) (enumerate row)
    /\ StronglySorted ranks_before (ranked row)
    /\ forall top_n, exists recs,
         get_recommendations twins "B by Y" top_n = Titles recs
         /\ map fst recs = map fst (slice (ranked row) 1 (top_n + 1)).
Proof.
  apply (ranking_sorted_stable twins "B by Y").
  - split; [|split; [reflexivity|]].
    + repeat constructor; simpl; intuition discriminate.
    + repeat constructor.
  - simpl. auto.
Defined.

(** C2: on a well-formed state, for a title of the Catalog and a positive
    [top_n], the function returns a list of exactly
    [min(top_n, CatalogSize - 1)] titles. *)
Theorem recommendations_length (m : model) (t : string) (top_n : Z) :
  well_formed m -> In t (titles m) -> (0 < top_n)%Z ->
  exists recs,
    get_recommendations m t top_n = Titles recs
    /\ List.length recs = Nat.min (Z.to_nat top_n) (catalog_size m - 1).
Proof.
  intros Hwf Hin Hn.
  destruct (get_recommendations_present m t Hwf Hin)
    as [idx [row [_ [_ [Hlen Hall]]]]].
  destruct (Hall top_n) as [recs [Hrecs [Hpos _]]].
  exists recs. split; [assumption|].
  rewrite <- (length_map fst recs), Hpos, length_map.
  rewrite slice_top_length by assumption.
  now rewrite ranked_length, Hlen.
Qed.

Lemma recommendations_length_witness :
  exists recs,
    get_recommendations trio "B by Y" 5 = Titles recs
    /\ List.length recs = Nat.min (Z.to_nat 5) (catalog_size trio - 1).
Proof.
  apply (recommendations_length trio "B by Y" 5).
  - split; [|split; [reflexivity|]].
    + repeat constructor; simpl; intuition discriminate.
    + repeat constructor.
  - simpl. auto.
  - reflexivity.
Defined.

(** Where dropping the first entry does exclude the query: when the
    self-similarity is strictly greater than every other score of the row,
    neither the position nor the title of the query is returned. *)
Lemma self_excluded_when_strictly_best
      (m : model) (t : string) (top_n : Z) (idx : nat) (row : list Q) (self : Q) :
  well_formed m ->
  nth_error (titles m) idx = Some t ->
  nth_error (similarity_matrix m) idx = Some row ->
  nth_error row idx = Some self ->
  (forall j s, j <> idx -> nth_error row j = Some s -> (s < self)%Q) ->
  exists recs,
    get_recommendations m t top_n = Titles recs
    /\ ~ In idx (map fst recs)
    /\ ~ In t (map snd recs).
Proof.
  intros Hwf Ht Hrow Hself Hbest.
  pose proof Hwf as [Hnd _].
  assert (Hlt : (idx < List.length (titles m))%nat).
  { apply nth_error_Some. congruence. }
  destruct (get_recommendations_present m t Hwf (nth_error_In _ _ Ht))
    as [idx' [row' [Ht' [Hrow' [_ Hall]]]]].
  assert (idx' = idx) as ->.
  { symmetry. apply (proj1 (NoDup_nth_error (titles m)) Hnd); congruence. }
  assert (row' = row) as -> by congruence.
  destruct (Hall top_n) as [recs [Hrecs [Hpos Htitles]]].
  exists recs. split; [assumption|].
  assert (Hidx : ~ In idx (map fst recs)).
  { rewrite Hpos.
    pose proof (ranked_perm row) as P.
    pose proof (ranked_ranks_before row) as S.
    assert (Hin : In (idx, self) (ranked row)).
    { apply (Permutation_in _ (Permutation_sym P)).
      apply enumerate_from_In. rewrite Nat.sub_0_r. split; [lia|assumption]. }
    assert (ND : NoDup (map fst (ranked row))).
    { apply (Permutation_NoDup (Permutation_map fst (Permutation_sym P))).
      unfold enumerate. rewrite enumerate_from_positions. apply seq_NoDup. }
    destruct (ranked row) as [|[j s] tl] eqn:E; [destruct Hin|].
    assert (Hj : nth_error row j = Some s).
    { assert (In (j, s) (enumerate row)) as H
          by (apply (Permutation_in _ P); now left).
      apply enumerate_from_In in H as [_ H]. now rewrite Nat.sub_0_r in H. }
    assert (j = idx) as ->.
    { destruct (Nat.eq_dec j idx) as [|D]; [assumption|exfalso].
      specialize (Hbest j s D Hj).
      destruct Hin as [Hin|Hin]; [congruence|].
      apply StronglySorted_inv in S as [_ S]. rewrite Forall_forall in S.
      destruct (S _ Hin) as [L|[Q _]]; simpl in *.
      - exact (Qlt_irrefl _ (Qlt_trans _ _ _ L Hbest)).
      - rewrite Q in Hbest. exact (Qlt_irrefl _ Hbest). }
    simpl in ND. apply NoDup_cons_iff in ND as [ND _].
    intro H. apply ND. apply in_map_iff in H as [e [He H]].
    apply in_map_iff. exists e. split; [assumption|].
    eapply slice_from_1_tail, H. }
  split; [assumption|].
  intro H. apply Hidx. apply in_map_iff in H as [e [He H]].
  apply in_map_iff. exists e. split; [|assumption].
  rewrite Forall_forall in Htitles. specialize (Htitles e H).
  assert (Hb : (fst e < List.length (titles m))%nat).
  { apply nth_error_Some. congruence. }
  apply (proj1 (NoDup_nth_error (titles m)) Hnd); congruence.
Qed.

(** C1: on two songs with the same feature vector, where every similarity
    is 1, the query for the second song returns that song itself: the
    first entry of the ranking, the only one dropped, is the other song. *)
Theorem self_recommended_on_tie :
  well_formed twins
  /\ In "B by Y" (titles twins)
  /\ ranked [1; 1]%Q = [(0%nat, 1%Q); (1%nat, 1%Q)]
  /\ get_recommendations twins "B by Y" 5 = Titles [(1%nat, "B by Y")]
  /\ recommend_songs twins (Some "B by Y")
     = (JRecommendations ["B by Y"], 200%nat).
Proof.
  split; [|split; [|split; [|split]]].
  - split; [|split; [reflexivity|]].
    + repeat constructor; simpl; intuition discriminate.
    + repeat constructor.
  - simpl. auto.
  - reflexivity.
  - reflexivity.
  - reflexivity.
Qed.

Lemma substring_prefix (t rest : string) :
  substring 0 (String.length t) (t ++ rest) = t.
Proof. induction t as [|c t IH]; simpl; [now destruct rest|now rewrite IH]. Qed.

(** C6: for a title that labels no row, the function returns the error
    string and no list; the string contains the title (after its first 13
    characters), and the endpoint answers it with status 404, the error
    of a request, not 500. *)
Theorem absent_title_not_found (m : model) (t : string) (top_n : Z) :
  ~ In t (titles m) ->
  get_recommendations m t top_n = ErrorString (not_found_message t)
  /\ substring 13 (String.length t) (not_found_message t) = t
  /\ (t = EmptyString
      \/ recommend_songs m (Some t) = (JError (not_found_message t), 404%nat)).
Proof.
  intro H.
  assert (E : forall n, get_recommendations m t n = ErrorString (not_found_message t)).
  { intro n. unfold get_recommendations. now rewrite lookup_absent. }
  split; [apply E|]. split.
  - unfold not_found_message. cbn. apply substring_prefix.
  - destruct t as [|c t]; [now left|right].
    unfold recommend_songs. now rewrite E.
Qed.

Lemma absent_title_not_found_witness :
  get_recommendations trio "Unknown Song" 5
  = ErrorString (not_found_message "Unknown Song")
  /\ substring 13 (String.length "Unknown Song")
       (not_found_message "Unknown Song") = "Unknown Song"
  /\ ("Unknown Song" = EmptyString
      \/ recommend_songs trio (Some "Unknown Song")
         = (JError (not_found_message "Unknown Song"), 404%nat)).
Proof.
  apply (absent_title_not_found trio "Unknown Song" 5).
  simpl. intuition discriminate.
Defined.

(** C7, as the specification states it, fails: with [top_n] zero or
    negative the function returns a list. *)
Lemma nonpositive_top_n_returns_list :
  well_formed trio
  /\ get_recommendations trio "B by Y" 0 = Titles []
  /\ get_recommendations trio "B by Y" (-2) = Titles [(0%nat, "A by X")].
Proof.
  split; [|split; reflexivity].
  split; [|split; [reflexivity|]].
  - repeat constructor; simpl; intuition discriminate.
  - repeat constructor.
Qed.

(** C7, amended: the function does not check [top_n].  On a well-formed
    state, for a title of the Catalog and [top_n <= 0], it returns a list:
    empty for 0 and -1, and of [CatalogSize + top_n] titles below that
    (none when this number is negative).  Left out, [top_n] is 5. *)
Theorem nonpositive_top_n_unchecked (m : model) (t : string) (top_n : Z) :
  well_formed m -> In t (titles m) -> (top_n <= 0)%Z ->
  (exists recs,
     get_recommendations m t top_n = Titles recs
     /\ List.length recs
        = if (top_n <? -1)%Z
          then Z.to_nat (Z.of_nat (catalog_size m) + top_n) else 0%nat)
  /\ get_recommendations_default m t = get_recommendations m t 5.
Proof.
  intros Hwf Hin Hn. split; [|reflexivity].
  destruct (get_recommendations_present m t Hwf Hin)
    as [idx [row [_ [_ [Hlen Hall]]]]].
  destruct (Hall top_n) as [recs [Hrecs [Hpos _]]].
  exists recs. split; [assumption|].
  rewrite <- (length_map fst recs), Hpos, length_map.
  rewrite slice_nonpositive_length by assumption.
  now rewrite ranked_length, Hlen.
Qed.

Lemma nonpositive_top_n_unchecked_witness :
  (exists recs,
     get_recommendations trio "A by X" (-2) = Titles recs
     /\ List.length recs
        = if (-2 <? -1)%Z
          then Z.to_nat (Z.of_nat (catalog_size trio) + -2) else 0%nat)
  /\ get_recommendations_default trio "A by X"
     = get_recommendations trio "A by X" 5.
Proof.
  apply (nonpositive_top_n_unchecked trio "A by X" (-2)).
  - split; [|split; [reflexivity|]].
    + repeat constructor; simpl; intuition discriminate.
    + repeat constructor.
  - simpl. auto.
  - lia.
Defined.

End Recommend.

(* ================================================================== *)
(** * Mood recommendations *)
(* ================================================================== *)

Module Mood.
Import Py App Spec PyFacts SliceFacts.

(** Splits on the first comparison of the [if]/[elif] chain that is still
    undecided; [tac] closes the branch where it succeeds. *)
Ltac chain_step mood tac :=
  match goal with
  | |- context [String.eqb mood ?label] =>
      destruct (String.eqb_spec mood label) as [->|?]; [tac|]
  end.

Lemma query_filter_None (mood : string) :
  query_filter mood = None <-> ~ In mood mood_labels.
Proof.
  unfold query_filter.
  repeat chain_step mood
    ltac:(split; [discriminate|intro H; exfalso; apply H; simpl; tauto]).
  split; [|reflexivity].
  intros _ H. simpl in H. intuition congruence.
Qed.

Lemma holds_strict (s : song) (col : column) (literal : Q) :
  (holds s (col, OpGt, literal) = true <-> (literal < cell col s)%Q)
  /\ (holds s (col, OpLt, literal) = true <-> (cell col s < literal)%Q).
Proof. simpl. split; apply Qltb_lt. Qed.

Lemma select_songs_In (w : where_clause) (songs : list song)
      (r : string * string * string) :
  In r (select_songs w songs) ->
  exists s, In s songs /\ r = project s /\ forallb (holds s) w = true.
Proof.
  unfold select_songs. intro H.
  apply in_map_iff in H as [s [E H]].
  apply firstn_In in H.
  apply (Permutation_in _ (sorted_perm _ _ _ _)) in H.
  apply filter_In in H as [Hin Hw].
  exists s. auto.
Qed.

Lemma select_songs_length (w : where_clause) (songs : list song) :
  (List.length (select_songs w songs) <= 5)%nat.
Proof.
  unfold select_songs. rewrite length_map, length_firstn. lia.
Qed.

(** The example of the specification: of two songs only the first is
    energetic. *)
Example energetic_example :
  recommend_mood (Some "energetic") (Some mismatched_csv)
  = (JMoodRecommendations [("A", "X", "A by X")], 200%nat).
Proof. reflexivity. Qed.

(** C4: for each of the eleven moods the endpoint runs a filter whose
    comparisons are all strict ([>] or [<]), whose conjunction is the
    predicate of the mood, and every row it returns is the projection of a
    row of the table that satisfies this predicate. *)
Theorem mood_rows_satisfy_predicate (md : mood) (songs : list song) :
  exists w,
    query_filter (mood_name md) = Some w
    /\ Forall strict w
    /\ (forall s, forallb (holds s) w = true <-> mood_predicate md s)
    /\ recommend_mood (Some (mood_name md)) (Some songs)
       = (JMoodRecommendations (select_songs w songs), 200%nat)
    /\ (forall r, In r (select_songs w songs) ->
          exists s, In s songs /\ r = project s /\ mood_predicate md s).
Proof.
  assert (P : forall w,
    (forall s, forallb (holds s) w = true <-> mood_predicate md s) ->
    forall r, In r (select_songs w songs) ->
      exists s, In s songs /\ r = project s /\ mood_predicate md s).
  { intros w Hw r Hr. apply select_songs_In in Hr as [s [Hin [E Hs]]].
    exists s. repeat split; try assumption. now apply Hw. }
  destruct md;
    (eexists; split; [reflexivity|]; split;
     [repeat constructor; simpl; auto|];
     match goal with
     | |- ?A /\ _ => assert (Hw : A)
     end;
     [intro s; cbn [forallb mood_predicate];
      rewrite ?andb_true_iff, ?andb_true_r;
      rewrite ?(proj1 (holds_strict s _ _)), ?(proj2 (holds_strict s _ _));
      simpl; tauto
     |split; [exact Hw|split; [reflexivity|apply (P _ Hw)]]]).
Qed.

(** Labels are compared as they are: a capital letter makes a mood
    unknown. *)
Example capitalised_mood_invalid :
  recommend_mood (Some "Happy") (Some mismatched_csv) = invalid_mood_response.
Proof. reflexivity. Qed.

(** C5: the chain ends in the invalid-mood answer exactly for the strings
    that are none of the eleven labels, compared as they are; the endpoint
    gives this answer exactly for those of them that are not empty (the
    empty string is answered earlier as a missing parameter); the answer
    has status 400 and differs from the not-found answer of [/recommend],
    whose status is 404. *)
Theorem invalid_mood_iff_unlisted (mood : string) (songs : option (list song)) :
  (query_filter mood = None <-> ~ In mood mood_labels)
  /\ (recommend_mood (Some mood) songs = invalid_mood_response
      <-> mood <> EmptyString /\ ~ In mood mood_labels)
  /\ List.length mood_labels = 11%nat
  /\ NoDup mood_labels
  /\ (forall (m : model) (t : string),
        recommend_songs m (Some t) <> invalid_mood_response
        /\ (JError (not_found_message t), 404%nat) <> invalid_mood_response).
Proof.
  split; [apply query_filter_None|]. split; [|split; [reflexivity|split]].
  - rewrite <- query_filter_None.
    destruct mood as [|c mood'].
    + split; [discriminate|]. intros [H _]. now contradiction H.
    + unfold recommend_mood.
      destruct (query_filter (String c mood')) as [w|].
      * split; [destruct songs; discriminate|]. intros [_ H]. discriminate.
      * split; [|reflexivity]. intros _. split; [discriminate|reflexivity].
  - repeat constructor; simpl; intuition discriminate.
  - intros m t. split; [|discriminate].
    unfold recommend_songs.
    destruct t; [discriminate|].
    destruct (get_recommendations m _ 5); discriminate.
Qed.

End Mood.

(* ================================================================== *)
(** * Startup *)
(* ================================================================== *)

Module Startup.
Import App Spec.

(** C8, as the specification states it, fails: a Catalog of two rows is
    loaded together with a matrix of dimension one, where the loader of the
    specification has to fail. *)
Lemma load_accepts_mismatch :
  validated_load_fails (Some mismatched_csv) (Some mismatched_npy)
  /\ load (Some mismatched_csv) (Some mismatched_npy)
     = Some {| df_scaled := mismatched_csv; similarity_matrix := mismatched_npy |}.
Proof.
  split; [|reflexivity].
  simpl. intros [H _]. discriminate.
Qed.

(** C8, amended: startup stops exactly when one of the two files is
    absent; two files that are present are loaded as they are, whatever
    the shape of the matrix. *)
Theorem load_fails_iff_absent (csv : option (list song))
                              (npy : option (list (list Q))) :
  (load csv npy = None <-> csv = None \/ npy = None)
  /\ (forall df sm, load (Some df) (Some sm)
                    = Some {| df_scaled := df; similarity_matrix := sm |}).
Proof.
  split; [|reflexivity].
  destruct csv, npy; simpl; split; intro H;
    try reflexivity; try discriminate; auto;
    destruct H; discriminate.
Qed.

End Startup.

(* ================================================================== *)
(** * The catalog build *)
(* ================================================================== *)

Module CatalogBuild.
Import Py FixDatabase Spec PyFacts.

Lemma deduplicated_rows_In (df seen : list track) (r : track) :
  In r (drop_duplicates_from seen df) -> In r df.
Proof.
  revert seen. induction df as [|x df IH]; simpl; intros seen H; [exact H|].
  destruct (existsb (same_name_artists x) seen).
  - right. eapply IH, H.
  - destruct H as [H|H]; [now left|right; eapply IH, H].
Qed.

Lemma to_sql_In (df : list song) (r : song) : In r (to_sql df) -> In r df.
Proof. unfold to_sql. destruct (distinct (map title df)); [auto|intros []]. Qed.

(** C10: every row of the [songs] table the script writes comes from a row
    of the dataset whose popularity is strictly greater than 30; a track
    with popularity 30 or less is in no row of the table. *)
Theorem songs_table_above_threshold
        (csv : option (list track)) (table : list song) (r : song) :
  songs_table csv = Some table -> In r table ->
  (30#1 < popularity r)%Q
  /\ (exists df, csv = Some df /\ In (song_track r) df)
  /\ (forall t : track, (popularity t <= 30#1)%Q -> ~ In (add_columns t) table).
Proof.
  intros Ht Hr. destruct csv as [df|]; [|discriminate].
  simpl in Ht. injection Ht as <-.
  assert (P : forall x, In x (to_sql (map add_columns
                (filter_popularity (drop_duplicates df)))) ->
              (30#1 < popularity x)%Q /\ In (song_track x) df).
  { intros x Hx. apply to_sql_In in Hx.
    apply in_map_iff in Hx as [t [<- Hx]].
    apply filter_In in Hx as [Hx Hp]. apply Qltb_lt in Hp.
    split; [exact Hp|]. simpl. eapply deduplicated_rows_In, Hx. }
  split; [apply (P r Hr)|]. split; [exists df; split; [reflexivity|apply (P r Hr)]|].
  intros t Hle Hin. apply P in Hin as [Hlt _]. simpl in Hlt.
  exact (Qle_not_lt _ _ Hle Hlt).
Qed.

Lemma songs_table_above_threshold_witness :
  let r := sample_song "B" "Y" (2#10) (90#1) (50#1) in
  (30#1 < popularity r)%Q
  /\ (exists df, Some (map song_track mismatched_csv) = Some df
                 /\ In (song_track r) df)
  /\ (forall t : track, (popularity t <= 30#1)%Q -> ~ In (add_columns t) [r]).
Proof.
  apply (songs_table_above_threshold
           (Some (map song_track mismatched_csv))
           [sample_song "B" "Y" (2#10) (90#1) (50#1)]).
  - reflexivity.
  - simpl. auto.
Defined.

End CatalogBuild.

(* ================================================================== *)
(** * The trending report *)
(* ================================================================== *)

Module Trending.
Import Py App Spec PyFacts.

(** ** The order of [<] on strings *)

Lemma ltb_lt (a b : string) :
  String.ltb a b = true <-> OrderedTypeEx.String_as_OT.lt a b.
Proof.
  rewrite <- OrderedTypeEx.String_as_OT.cmp_lt.
  unfold String.ltb, OrderedTypeEx.String_as_OT.cmp.
  destruct (String.compare a b); split; congruence.
Qed.

Lemma ltb_irrefl (a : string) : String.ltb a a = false.
Proof.
  destruct (String.ltb a a) eqn:E; [|reflexivity].
  apply ltb_lt in E. exfalso.
  exact (OrderedTypeEx.String_as_OT.lt_not_eq a a E eq_refl).
Qed.

Lemma ltb_trans (a b c : string) :
  String.ltb a b = true -> String.ltb b c = true -> String.ltb a c = true.
Proof.
  rewrite !ltb_lt. apply OrderedTypeEx.String_as_OT.lt_trans.
Qed.

Lemma ltb_asym (a b : string) : String.ltb a b = true -> String.ltb b a = false.
Proof.
  intro H. destruct (String.ltb b a) eqn:E; [|reflexivity].
  pose proof (ltb_trans _ _ _ H E) as C. now rewrite ltb_irrefl in C.
Qed.

Lemma ltb_total (a b : string) :
  String.ltb a b = true \/ a = b \/ String.ltb b a = true.
Proof.
  unfold String.ltb. rewrite (String.compare_antisym b a).
  destruct (String.compare a b) eqn:E; simpl; auto.
  right. left. now apply String.compare_eq_iff.
Qed.

Lemma ltb_ge_trans (a b c : string) :
  String.ltb a b = false -> String.ltb b c = false -> String.ltb a c = false.
Proof.
  intros H1 H2. destruct (String.ltb a c) eqn:E; [|reflexivity].
  destruct (ltb_total a b) as [L|[->|L]]; [congruence|congruence|].
  pose proof (ltb_trans _ _ _ L E). congruence.
Qed.

(** ** The first element of an ascending sort is a least element *)

Lemma sort_ascending_head (l : list string) (h : string) (t : list string) :
  sort_ascending (fun v => v) String.ltb l = h :: t ->
  forall v, In v l -> String.ltb v h = false.
Proof.
  intros E v Hv.
  assert (S : StronglySorted (ascending (fun v => v) String.ltb (fun _ _ => True))
                             (sort_ascending (fun v => v) String.ltb l)).
  { apply sort_ascending_sorted; [apply ltb_asym|apply ltb_ge_trans|].
    clear. induction l; constructor; [assumption|].
    apply Forall_forall. auto. }
  apply (Permutation_in _ (Permutation_sym
           (sort_ascending_perm (fun v => v) String.ltb l))) in Hv.
  rewrite E in S, Hv. apply StronglySorted_inv in S as [_ S].
  destruct Hv as [<-|Hv]; [apply ltb_irrefl|].
  rewrite Forall_forall in S. apply (S v Hv).
Qed.

(** ** Distinct values and counts *)

Lemma existsb_eqb_In (v : string) (l : list string) :
  existsb (String.eqb v) l = true <-> In v l.
Proof.
  rewrite existsb_exists. split.
  - intros [x [Hx E]]. apply String.eqb_eq in E. now subst.
  - intro H. exists v. split; [assumption|apply String.eqb_refl].
Qed.

Lemma unique_from_In (col seen : list string) (v : string) :
  In v (unique_from seen col) <-> In v col /\ ~ In v seen.
Proof.
  revert seen. induction col as [|x col IH]; simpl; intro seen; [tauto|].
  destruct (existsb (String.eqb x) seen) eqn:E.
  - apply existsb_eqb_In in E. rewrite IH. split.
    + intros [H1 H2]. auto.
    + intros [[->|H1] H2]; [contradiction|auto].
  - assert (N : ~ In x seen).
    { intro H. apply existsb_eqb_In in H. congruence. }
    simpl. rewrite IH. simpl. split.
    + intros [<-|[H1 H2]]; auto.
    + intros [[->|H1] H2]; [now left|].
      destruct (String.eqb_spec x v) as [->|D]; [now left|right; tauto].
Qed.

Lemma unique_from_NoDup (col seen : list string) : NoDup (unique_from seen col).
Proof.
  revert seen. induction col as [|x col IH]; simpl; intro seen; [constructor|].
  destruct (existsb (String.eqb x) seen); [apply IH|].
  constructor; [|apply IH].
  rewrite unique_from_In. simpl. tauto.
Qed.

Lemma unique_In (col : list string) (v : string) : In v (unique col) <-> In v col.
Proof. unfold unique. rewrite unique_from_In. simpl. tauto. Qed.

Lemma occurrences_absent (col : list string) (v : string) :
  ~ In v col -> occurrences v col = 0%nat.
Proof.
  unfold occurrences. induction col as [|x col IH]; simpl; intro H; [reflexivity|].
  destruct (String.eqb_spec v x) as [->|D]; [exfalso; auto|apply IH; tauto].
Qed.

Lemma fold_max_bound (l : list nat) (n : nat) :
  In n l -> (n <= fold_right Nat.max 0%nat l)%nat.
Proof.
  induction l as [|x l IH]; simpl; [tauto|].
  intros [->|H]; [lia|]. specialize (IH H). lia.
Qed.

Lemma fold_max_attained (l : list nat) :
  l <> [] -> In (fold_right Nat.max 0%nat l) l.
Proof.
  induction l as [|x l IH]; [congruence|]. intros _. simpl.
  destruct l as [|y l].
  - left. simpl. lia.
  - destruct (Nat.max_spec x (fold_right Nat.max 0%nat (y :: l))) as [[_ E]|[_ E]];
      rewrite E; [right; apply IH; discriminate|now left].
Qed.

(** ** [mode] *)

Lemma mode_head (col : list string) :
  col <> [] ->
  exists a rest,
    mode col = a :: rest /\ most_frequent col a /\ least_among_ties col a.
Proof.
  intro Hne. unfold mode.
  set (counts := map (fun v => (v, occurrences v col)) (unique col)).
  set (highest := fold_right Nat.max 0%nat (map snd counts)).
  set (modes := map fst (filter (fun e => Nat.eqb (snd e) highest) counts)).
  assert (M : forall v, In v modes <-> In v col /\ occurrences v col = highest).
  { intro v. unfold modes. rewrite in_map_iff. split.
    - intros [e [<- He]]. apply filter_In in He as [He Hs].
      apply Nat.eqb_eq in Hs. unfold counts in He.
      apply in_map_iff in He as [u [<- Hu]]. apply (proj1 (unique_In _ _)) in Hu.
      simpl in *. auto.
    - intros [Hv Ho]. exists (v, occurrences v col). split; [reflexivity|].
      apply filter_In. split; [|now apply Nat.eqb_eq].
      unfold counts. apply in_map_iff. exists v. split; [reflexivity|].
      now apply (proj2 (unique_In _ _)). }
  assert (B : forall v, In v col -> (occurrences v col <= highest)%nat).
  { intros v Hv. apply fold_max_bound. apply in_map_iff.
    exists (v, occurrences v col). split; [reflexivity|].
    unfold counts. apply in_map_iff. exists v. split; [reflexivity|].
    now apply (proj2 (unique_In _ _)). }
  assert (N : exists v, In v modes).
  { assert (In highest (map snd counts)) as H.
    { apply fold_max_attained. unfold counts.
      destruct col as [|x col]; [congruence|].
      assert (In x (unique (x :: col))) as Hx by (apply (proj2 (unique_In _ _)); now left).
      destruct (unique (x :: col)); [destruct Hx|discriminate]. }
    apply in_map_iff in H as [[v c] [Hc He]]. simpl in Hc. subst c.
    exists v. unfold modes. apply in_map_iff. exists (v, highest).
    split; [reflexivity|]. apply filter_In. split; [assumption|].
    apply Nat.eqb_refl. }
  unfold sorted.
  pose proof (sort_ascending_perm (fun v => v) String.ltb modes) as P.
  destruct (sort_ascending (fun v => v) String.ltb modes) as [|a rest] eqn:E.
  - destruct N as [v Hv]. apply (Permutation_in _ (Permutation_sym P)) in Hv.
    destruct Hv.
  - exists a, rest. split; [reflexivity|].
    assert (Ha : In a modes) by (apply (Permutation_in _ P); now left).
    apply M in Ha as [Hin Ho]. split; [split; [assumption|]|].
    + intro b. destruct (in_dec string_dec b col) as [Hb|Hb].
      * rewrite Ho. now apply B.
      * rewrite (occurrences_absent col b Hb). lia.
    + intros b Hb Hc. apply (sort_ascending_head modes a rest E).
      apply M. split; [assumption|congruence].
Qed.

(** ** [value_counts] *)

Lemma Permutation_filter {A} (f : A -> bool) (l l' : list A) :
  Permutation l l' -> Permutation (filter f l) (filter f l').
Proof.
  induction 1 as [|x l l' H IH|x y l|l l' l'' H1 IH1 H2 IH2]; simpl.
  - constructor.
  - destruct (f x); [now constructor|assumption].
  - destruct (f x), (f y); try reflexivity. apply perm_swap.
  - now transitivity (filter f l').
Qed.

Lemma filter_label_unique {V} (g : string -> V) (l : list string) (a : string) :
  NoDup l -> In a l ->
  filter (fun e => String.eqb (fst e) a) (map (fun v => (v, g v)) l) = [(a, g a)].
Proof.
  induction 1 as [|x l Hx Hnd IH]; intro Hin; [destruct Hin|]. simpl.
  assert (Z : forall l', ~ In a l' ->
    filter (fun e => String.eqb (fst e) a) (map (fun v => (v, g v)) l') = []).
  { induction l' as [|y l' IH']; simpl; intro H; [reflexivity|].
    destruct (String.eqb_spec y a) as [->|D]; [exfalso; auto|apply IH'; tauto]. }
  destruct (String.eqb_spec x a) as [->|D].
  - now rewrite Z.
  - destruct Hin as [->|Hin]; [congruence|auto].
Qed.

Lemma value_counts_loc (col : list string) (a : string) :
  In a col ->
  loc_all String.eqb (value_counts col) a = [occurrences a col].
Proof.
  intro Hin. unfold loc_all, value_counts.
  set (counts := map (fun v => (v, occurrences v col)) (unique col)).
  pose proof (Permutation_filter (fun e => String.eqb (fst e) a) _ _
                (sorted_perm snd Nat.ltb true counts)) as P.
  unfold counts in P at 2.
  rewrite (filter_label_unique (fun v => occurrences v col)) in P.
  - apply Permutation_sym, Permutation_length_1_inv in P.
    fold counts. now rewrite P.
  - apply unique_from_NoDup.
  - now apply (proj2 (unique_In _ _)).
Qed.

(** ** [idxmax] *)

Lemma idxmax_from_bound (col : list Q) (best_i i : nat) (best : Q) :
  (best_i < i)%nat -> (idxmax_from best_i best i col < i + List.length col)%nat.
Proof.
  revert best_i i best. induction col as [|x col IH]; simpl; intros; [lia|].
  destruct (Qltb best x).
  - specialize (IH i (S i) x). lia.
  - specialize (IH best_i (S i) best). lia.
Qed.

Lemma idxmax_bound (col : list Q) :
  col <> [] -> exists i, idxmax col = Some i /\ (i < List.length col)%nat.
Proof.
  destruct col as [|x col]; [congruence|]. intros _. simpl.
  eexists. split; [reflexivity|].
  pose proof (idxmax_from_bound col 0 1 x). lia.
Qed.

(** C9, as the specification states it, fails: of two artists with one
    song each the report names the second of the Catalog, whose name is
    the smaller string. *)
Lemma most_frequent_artist_not_earliest :
  artists_column duo = ["Y"; "X"]
  /\ reported_artist (get_trending duo) = Some ("X", 1%Z)
  /\ ~ earliest_among_ties (artists_column duo) "X".
Proof.
  split; [reflexivity|]. split; [reflexivity|].
  intro H. specialize (H "Y"). simpl in H.
  assert (1 <= 0)%nat by (apply H; auto). lia.
Qed.

(** C9, amended: on a Catalog that is not empty the report names an
    [artists] value that occurs in the greatest number of rows, together
    with this number; among several such values it names the least one in
    the order of strings. *)
Theorem most_frequent_artist_least (m : model) :
  df_scaled m <> [] ->
  exists a,
    reported_artist (get_trending m)
    = Some (a, Z.of_nat (occurrences a (artists_column m)))
    /\ snd (get_trending m) = 200%nat
    /\ most_frequent (artists_column m) a
    /\ least_among_ties (artists_column m) a.
Proof.
  intro Hne. unfold get_trending.
  destruct (idxmax_bound (map (fun s : song => popularity s) (df_scaled m)))
    as [i [Hi Hlt]].
  { destruct (df_scaled m); [congruence|discriminate]. }
  rewrite Hi. rewrite length_map in Hlt.
  destruct (nth_error (df_scaled m) i) as [ps|] eqn:Hps.
  2:{ apply nth_error_Some in Hlt. contradiction. }
  fold (artists_column m).
  destruct (mode_head (artists_column m)) as [a [rest [Hm [Hf Hl]]]].
  { unfold artists_column. destruct (df_scaled m); [congruence|discriminate]. }
  rewrite Hm. rewrite (value_counts_loc _ _ (proj1 Hf)).
  exists a. simpl. auto.
Qed.

Lemma most_frequent_artist_least_witness :
  exists a,
    reported_artist (get_trending duo)
    = Some (a, Z.of_nat (occurrences a (artists_column duo)))
    /\ snd (get_trending duo) = 200%nat
    /\ most_frequent (artists_column duo) a
    /\ least_among_ties (artists_column duo) a.
Proof.
  apply (most_frequent_artist_least duo). discriminate.
Defined.

End Trending.

(* ================================================================== *)
(** * More on the recommendation engine *)
(* ================================================================== *)

Module RecommendMore.
Import Py App Spec PyFacts SliceFacts IndexFacts Recommend.

Lemma trio_well_formed : well_formed trio.
Proof.
  split; [|split; [reflexivity|]].
  - repeat constructor; simpl; intuition discriminate.
  - repeat constructor.
Qed.

(** ** The title index *)

Lemma combine_seq_lookup (labels : list string) (k i : nat) (t : string) :
  In i (loc_all String.eqb (combine labels (seq k (List.length labels))) t)
  <-> (k <= i)%nat /\ nth_error labels (i - k) = Some t.
Proof.
  revert k. induction labels as [|x labels IH]; intro k.
  - simpl. split; [tauto|]. intros [_ H]. destruct (i - k)%nat; discriminate.
  - unfold loc_all in *. simpl. destruct (String.eqb_spec x t) as [->|D]; simpl.
    + rewrite IH. split.
      * intros [<-|[H1 H2]].
        -- split; [lia|]. now rewrite Nat.sub_diag.
        -- split; [lia|]. replace (i - k)%nat with (S (i - S k)) by lia. exact H2.
      * intros [H1 H2]. destruct (i - k)%nat as [|j] eqn:E.
        -- left. lia.
        -- right. split; [lia|]. replace (i - S k)%nat with j by lia. exact H2.
    + rewrite IH. split.
      * intros [H1 H2]. split; [lia|].
        replace (i - k)%nat with (S (i - S k)) by lia. exact H2.
      * intros [H1 H2]. destruct (i - k)%nat as [|j] eqn:E.
        -- simpl in H2. congruence.
        -- split; [lia|]. replace (i - S k)%nat with j by lia. exact H2.
Qed.

Lemma lookup_positions (m : model) (t : string) (i : nat) :
  In i (loc_all String.eqb (indices m) t) <-> nth_error (titles m) i = Some t.
Proof.
  rewrite indices_eq.
  assert (L : List.length (titles m) = catalog_size m) by apply length_map.
  rewrite <- L, combine_seq_lookup, Nat.sub_0_r.
  split; [tauto|]. intro H. split; [lia|assumption].
Qed.

(** X: the index built at startup holds every row of the Catalog, in
    order, [drop_duplicates()] having removed none; looking a title up
    gives exactly the positions of the rows that carry it. *)
Theorem title_index_holds_every_row (m : model) (t : string) (i : nat) :
  map fst (indices m) = titles m
  /\ map snd (indices m) = seq 0 (catalog_size m)
  /\ (In i (loc_all String.eqb (indices m) t)
      <-> nth_error (titles m) i = Some t).
Proof.
  split; [|split; [|apply lookup_positions]]; rewrite indices_eq.
  - assert (C : forall (a : list string) (b : list nat),
               List.length a = List.length b -> map fst (combine a b) = a).
    { induction a as [|x a IH]; destruct b as [|y b]; simpl; intro H;
        try discriminate; [reflexivity|]. rewrite IH; [reflexivity|lia]. }
    apply C. rewrite length_seq. apply length_map.
  - assert (C : forall (a : list string) (b : list nat),
               List.length a = List.length b -> map snd (combine a b) = b).
    { induction a as [|x a IH]; destruct b as [|y b]; simpl; intro H;
        try discriminate; [reflexivity|]. rewrite IH; [reflexivity|lia]. }
    apply C. rewrite length_seq. apply length_map.
Qed.

(** X: the function returns its error string exactly for the titles that
    label no row of the Catalog, whatever [top_n] and whatever the
    matrix. *)
Theorem error_string_iff_absent (m : model) (t : string) (top_n : Z) :
  (exists msg, get_recommendations m t top_n = ErrorString msg)
  <-> ~ In t (titles m).
Proof.
  split.
  - intros [msg H] Hin.
    apply In_nth_error in Hin as [i Hi].
    pose proof (proj2 (lookup_positions m t i) Hi) as Hl.
    unfold get_recommendations in H.
    destruct (loc_all String.eqb (indices m) t) as [|idx [|idx' rest]];
      [destruct Hl| |discriminate].
    destruct (nth_error (similarity_matrix m) idx); [|discriminate].
    destruct (iloc _ _); discriminate.
  - intro H. eexists. unfold get_recommendations.
    now rewrite lookup_absent.
Qed.

(** X: a matrix with too few rows, which startup accepts, shows at the
    request: for a title whose position has no matrix row the function
    raises, and the endpoint answers 500. *)
Theorem missing_matrix_row_raises (m : model) (t : string) (idx : nat) (top_n : Z) :
  NoDup (titles m) ->
  nth_error (titles m) idx = Some t ->
  (List.length (similarity_matrix m) <= idx)%nat ->
  get_recommendations m t top_n = Raises
  /\ (t = EmptyString \/ recommend_songs m (Some t) = (Unhandled, 500%nat)).
Proof.
  intros Hnd Ht Hlen.
  destruct (lookup_present m t Hnd (nth_error_In _ _ Ht)) as [idx' [Ht' Hloc]].
  assert (idx' = idx) as ->.
  { apply (proj1 (NoDup_nth_error (titles m)) Hnd); [|congruence].
    apply nth_error_Some. congruence. }
  assert (R : forall n, get_recommendations m t n = Raises).
  { intro n. unfold get_recommendations. rewrite Hloc.
    now rewrite (proj2 (nth_error_None _ _) Hlen). }
  split; [apply R|].
  destruct t as [|c t]; [now left|right].
  unfold recommend_songs. now rewrite R.
Qed.

Lemma missing_matrix_row_raises_witness :
  get_recommendations mismatched "B by Y" 5 = Raises
  /\ ("B by Y" = EmptyString
      \/ recommend_songs mismatched (Some "B by Y") = (Unhandled, 500%nat)).
Proof.
  apply (missing_matrix_row_raises mismatched "B by Y" 1 5).
  - repeat constructor; simpl; intuition discriminate.
  - reflexivity.
  - simpl. lia.
Defined.

(** ** What a successful call returns *)

Lemma get_recommendations_unfold (m : model) (t : string) (top_n : Z)
      (idx : nat) (row : list Q) :
  loc_all String.eqb (indices m) t = [idx] ->
  nth_error (similarity_matrix m) idx = Some row ->
  get_recommendations m t top_n
  = match iloc (titles m) (map fst (slice (ranked row) 1 (top_n + 1))) with
    | Some recs => Titles recs
    | None => Raises
    end.
Proof. intros Hl Hr. unfold get_recommendations. now rewrite Hl, Hr. Qed.

Lemma iloc_app {V} (col : list V) (ps qs : list nat) :
  iloc col (ps ++ qs)
  = match iloc col ps, iloc col qs with
    | Some a, Some b => Some (a ++ b)%list
    | _, _ => None
    end.
Proof.
  induction ps as [|p ps IH]; simpl.
  - now destruct (iloc col qs).
  - rewrite IH. destruct (nth_error col p); [|reflexivity].
    destruct (iloc col ps); [|reflexivity].
    now destruct (iloc col qs).
Qed.

Lemma slice_top_eq {A} (l : list A) (n : Z) :
  (0 <= n)%Z -> slice l 1 (n + 1) = firstn (Z.to_nat n) (tl l).
Proof.
  intro Hn. unfold slice, adjust_index.
  destruct (n + 1 <? 0)%Z eqn:E1; [lia|]. destruct (1 <? 0)%Z eqn:E2; [lia|].
  destruct l as [|x l].
  - simpl. now rewrite !firstn_nil.
  - replace (Z.to_nat (Z.min 1 (Z.of_nat (List.length (x :: l))))) with 1%nat
      by (simpl List.length; lia).
    simpl skipn. simpl tl.
    destruct (Nat.le_gt_cases (Z.to_nat n) (List.length l)) as [H|H].
    + f_equal. simpl List.length. lia.
    + rewrite !firstn_all2 by (simpl List.length; lia). reflexivity.
Qed.

Lemma firstn_prefix {A} (l : list A) (n n' : nat) :
  (n <= n')%nat -> exists extra, firstn n' l = (firstn n l ++ extra)%list.
Proof.
  intro H. exists (skipn n (firstn n' l)).
  rewrite <- (firstn_skipn n (firstn n' l)) at 1.
  rewrite firstn_firstn. now replace (Nat.min n n') with n by lia.
Qed.

(** X: asking for more keeps what was given: on a well-formed state, for
    a title of the Catalog and [0 <= top_n <= top_n'], the list returned
    for [top_n] is the beginning of the list returned for [top_n']. *)
Theorem more_recommendations_extend (m : model) (t : string) (top_n top_n' : Z) :
  well_formed m -> In t (titles m) -> (0 <= top_n <= top_n')%Z ->
  exists recs extra,
    get_recommendations m t top_n = Titles recs
    /\ get_recommendations m t top_n' = Titles (recs ++ extra)%list.
Proof.
  intros Hwf Hin Hn.
  destruct (lookup_present m t (proj1 Hwf) Hin) as [idx [Ht Hloc]].
  destruct (get_recommendations_present m t Hwf Hin)
    as [idx' [row [Ht' [Hrow [_ Hall]]]]].
  assert (idx' = idx) as ->.
  { apply (proj1 (NoDup_nth_error (titles m)) (proj1 Hwf)); [|congruence].
    apply nth_error_Some. congruence. }
  pose proof (get_recommendations_unfold m t top_n idx row Hloc Hrow) as U1.
  pose proof (get_recommendations_unfold m t top_n' idx row Hloc Hrow) as U2.
  rewrite slice_top_eq in U1, U2 by lia.
  destruct (firstn_prefix (tl (ranked row)) (Z.to_nat top_n) (Z.to_nat top_n'))
    as [extra E]; [lia|].
  rewrite E, map_app, iloc_app in U2.
  destruct (Hall top_n') as [recs' [H2 _]]. rewrite H2 in U2.
  destruct (iloc (titles m) (map fst (firstn (Z.to_nat top_n) (tl (ranked row)))))
    as [a|]; [|discriminate].
  destruct (iloc (titles m) (map fst extra)) as [b|]; [|discriminate].
  exists a, b. split; [exact U1|]. rewrite H2. exact U2.
Qed.

Lemma more_recommendations_extend_witness :
  exists recs extra,
    get_recommendations trio "B by Y" 1 = Titles recs
    /\ get_recommendations trio "B by Y" 2 = Titles (recs ++ extra)%list.
Proof.
  apply (more_recommendations_extend trio "B by Y" 1 2).
  - exact trio_well_formed.
  - simpl. auto.
  - lia.
Defined.

Lemma self_excluded_when_strictly_best_witness :
  exists recs,
    get_recommendations trio "B by Y" 5 = Titles recs
    /\ ~ In 1%nat (map fst recs)
    /\ ~ In "B by Y" (map snd recs).
Proof.
  apply (self_excluded_when_strictly_best trio "B by Y" 5 1 [1#2; 1; 1#2]%Q 1%Q).
  - exact trio_well_formed.
  - reflexivity.
  - reflexivity.
  - reflexivity.
  - intros j s Hj H.
    destruct j as [|[|[|j]]]; simpl in H; try congruence;
      try (injection H as <-; reflexivity).
    destruct j; discriminate.
Defined.

Lemma NoDup_firstn {A} (n : nat) (l : list A) : NoDup l -> NoDup (firstn n l).
Proof.
  intro H. rewrite <- (firstn_skipn n l) in H.
  eapply NoDup_app_remove_r, H.
Qed.

Lemma ranked_positions_NoDup (row : list Q) : NoDup (map fst (ranked row)).
Proof.
  apply (Permutation_NoDup
           (Permutation_map fst (Permutation_sym (ranked_perm row)))).
  unfold enumerate. rewrite enumerate_from_positions. apply seq_NoDup.
Qed.

(** Entries taken at different positions of a column without duplicates
    have different values. *)
Lemma distinct_positions_distinct_values {V} (col : list V) (recs : Series nat V) :
  NoDup col ->
  Forall (fun e => nth_error col (fst e) = Some (snd e)) recs ->
  NoDup (map fst recs) -> NoDup (map snd recs).
Proof.
  intros Hnd. induction 1 as [|e recs He Hall IH]; simpl; intro Hp; [constructor|].
  apply NoDup_cons_iff in Hp as [Hp1 Hp2].
  constructor; [|auto].
  intro Hin. apply Hp1. apply in_map_iff in Hin as [e' [E Hin]].
  apply in_map_iff. exists e'. split; [|assumption].
  rewrite Forall_forall in Hall. specialize (Hall e' Hin).
  apply (proj1 (NoDup_nth_error col) Hnd); [|congruence].
  apply nth_error_Some. congruence.
Qed.

(** X: on a well-formed state the endpoint answers a title of the Catalog
    with status 200 and [min(5, CatalogSize - 1)] titles, all of them
    titles of the Catalog and no two of them the same. *)
Theorem recommend_songs_present (m : model) (t : string) :
  well_formed m -> In t (titles m) -> t <> EmptyString ->
  exists l,
    recommend_songs m (Some t) = (JRecommendations l, 200%nat)
    /\ List.length l = Nat.min 5 (catalog_size m - 1)
    /\ NoDup l
    /\ (forall x, In x l -> In x (titles m)).
Proof.
  intros Hwf Hin Hne.
  destruct (get_recommendations_present m t Hwf Hin)
    as [idx [row [_ [_ [Hlen Hall]]]]].
  destruct (Hall 5%Z) as [recs [Hrecs [Hpos Htitles]]].
  exists (map snd recs).
  split; [|split; [|split]].
  - unfold recommend_songs. destruct t as [|c t]; [congruence|].
    now rewrite Hrecs.
  - rewrite length_map, <- (length_map fst recs), Hpos, length_map.
    rewrite (slice_top_length (ranked row) 5) by lia.
    rewrite ranked_length, Hlen. reflexivity.
  - apply (distinct_positions_distinct_values (titles m));
      [exact (proj1 Hwf)|assumption|].
    rewrite Hpos, (slice_top_eq (ranked row) 5) by lia.
    rewrite <- firstn_map. apply NoDup_firstn.
    pose proof (ranked_positions_NoDup row) as H.
    destruct (ranked row); simpl in *; [constructor|].
    now apply NoDup_cons_iff in H.
  - intros x Hx. apply in_map_iff in Hx as [e [<- He]].
    rewrite Forall_forall in Htitles.
    eapply nth_error_In, Htitles, He.
Qed.

Lemma recommend_songs_present_witness :
  exists l,
    recommend_songs trio (Some "A by X") = (JRecommendations l, 200%nat)
    /\ List.length l = Nat.min 5 (catalog_size trio - 1)
    /\ NoDup l
    /\ (forall x, In x l -> In x (titles trio)).
Proof.
  apply (recommend_songs_present trio "A by X").
  - exact trio_well_formed.
  - simpl. auto.
  - discriminate.
Defined.

End RecommendMore.

(* ================================================================== *)
(** * More on the trending report *)
(* ================================================================== *)

Module TrendingMore.
Import Py App Spec PyFacts Trending.

(** [idxmax_from], started after a prefix whose best cell so far is known,
    ends at the first greatest cell of the whole column. *)
Lemma idxmax_from_first_greatest (col prefix : list Q) (best_i : nat) (best : Q) :
  nth_error prefix best_i = Some best ->
  (forall y, In y prefix -> (y <= best)%Q) ->
  (forall j y, (j < best_i)%nat -> nth_error prefix j = Some y -> (y < best)%Q) ->
  let r := idxmax_from best_i best (List.length prefix) col in
  exists b,
    nth_error (prefix ++ col) r = Some b
    /\ (forall y, In y (prefix ++ col) -> (y <= b)%Q)
    /\ (forall j y, (j < r)%nat -> nth_error (prefix ++ col) j = Some y -> (y < b)%Q).
Proof.
  revert prefix best_i best.
  induction col as [|x col IH]; intros prefix best_i best Hb Hle Hlt; simpl.
  - rewrite app_nil_r. exists best. auto.
  - assert (Hi : (best_i < List.length prefix)%nat)
      by (apply nth_error_Some; congruence).
    replace (prefix ++ x :: col)%list with ((prefix ++ [x]) ++ col)%list
      by (rewrite <- app_assoc; reflexivity).
    replace (S (List.length prefix)) with (List.length (prefix ++ [x])%list)
      by (rewrite length_app; simpl; lia).
    destruct (Qltb best x) eqn:E.
    + apply Qltb_lt in E. apply IH.
      * rewrite nth_error_app2 by lia. now rewrite Nat.sub_diag.
      * intros y Hy. apply in_app_or in Hy as [Hy|[<-|[]]].
        -- apply Qlt_le_weak. eapply Qle_lt_trans; [apply Hle, Hy|exact E].
        -- apply Qle_refl.
      * intros j y Hj Hy. rewrite nth_error_app1 in Hy by lia.
        eapply Qle_lt_trans; [eapply Hle, nth_error_In, Hy|exact E].
    + apply Qltb_ge in E. apply IH.
      * rewrite nth_error_app1 by lia. exact Hb.
      * intros y Hy. apply in_app_or in Hy as [Hy|[<-|[]]]; auto.
      * intros j y Hj Hy. rewrite nth_error_app1 in Hy by lia. eauto.
Qed.

Lemma idxmax_first_greatest (col : list Q) (i : nat) :
  idxmax col = Some i ->
  exists b,
    nth_error col i = Some b
    /\ (forall y, In y col -> (y <= b)%Q)
    /\ (forall j y, (j < i)%nat -> nth_error col j = Some y -> (y < b)%Q).
Proof.
  destruct col as [|x col]; [discriminate|]. simpl. intro H. injection H as <-.
  apply (idxmax_from_first_greatest col [x] 0 x).
  - reflexivity.
  - intros y [<-|[]]. apply Qle_refl.
  - intros j y Hj. lia.
Qed.

(** The report on a Catalog that is not empty. *)
Lemma get_trending_nonempty (m : model) :
  df_scaled m <> [] ->
  exists i popular_song a,
    idxmax (map (fun s : song => popularity s) (df_scaled m)) = Some i
    /\ nth_error (df_scaled m) i = Some popular_song
    /\ get_trending m
       = (JTrending (name popular_song) (artists popular_song)
                    (int (popularity popular_song))
                    a (Z.of_nat (occurrences a (artists_column m))), 200%nat)
    /\ In a (artists_column m).
Proof.
  intro Hne. unfold get_trending.
  destruct (idxmax_bound (map (fun s : song => popularity s) (df_scaled m)))
    as [i [Hi Hlt]].
  { destruct (df_scaled m); [congruence|discriminate]. }
  rewrite Hi. rewrite length_map in Hlt.
  destruct (nth_error (df_scaled m) i) as [ps|] eqn:Hps.
  2:{ apply nth_error_Some in Hlt. contradiction. }
  fold (artists_column m).
  destruct (mode_head (artists_column m)) as [a [rest [Hm [Hf _]]]].
  { unfold artists_column. destruct (df_scaled m); [congruence|discriminate]. }
  rewrite Hm, (value_counts_loc _ _ (proj1 Hf)).
  exists i, ps, a. destruct Hf. auto.
Qed.

Lemma occurrences_bounds (col : list string) (a : string) :
  In a col -> (1 <= occurrences a col <= List.length col)%nat.
Proof.
  unfold occurrences. induction col as [|x col IH]; simpl; intro H; [destruct H|].
  destruct (String.eqb_spec a x) as [->|D]; simpl.
  - assert (List.length (filter (String.eqb x) col) <= List.length col)%nat.
    { clear. induction col as [|y col IH]; simpl; [lia|].
      destruct (String.eqb x y); simpl; lia. }
    lia.
  - destruct H as [->|H]; [congruence|]. specialize (IH H). lia.
Qed.

(** X: on a Catalog that is not empty the report names, as most popular
    song, the first row whose popularity is the greatest: no row is more
    popular, every earlier row is strictly less popular, and the
    popularity shown is the integer part of the row's. *)
Theorem most_popular_song_first_greatest (m : model) :
  df_scaled m <> [] ->
  exists i popular_song a c,
    nth_error (df_scaled m) i = Some popular_song
    /\ get_trending m
       = (JTrending (name popular_song) (artists popular_song)
                    (int (popularity popular_song)) a c, 200%nat)
    /\ (forall s : song, In s (df_scaled m) ->
          (popularity s <= popularity popular_song)%Q)
    /\ (forall j (s : song), (j < i)%nat -> nth_error (df_scaled m) j = Some s ->
          (popularity s < popularity popular_song)%Q).
Proof.
  intro Hne.
  destruct (get_trending_nonempty m Hne) as [i [ps [a [Hi [Hps [Hr _]]]]]].
  destruct (idxmax_first_greatest _ _ Hi) as [b [Hb [Hle Hlt]]].
  rewrite nth_error_map, Hps in Hb. simpl in Hb. injection Hb as <-.
  exists i, ps, a, (Z.of_nat (occurrences a (artists_column m))).
  split; [assumption|]. split; [assumption|]. split.
  - intros s Hs. apply Hle. apply in_map_iff. exists s. auto.
  - intros j s Hj Hs. apply (Hlt j); [assumption|].
    now rewrite nth_error_map, Hs.
Qed.

Lemma most_popular_song_first_greatest_witness :
  exists i popular_song a c,
    nth_error (df_scaled trio) i = Some popular_song
    /\ get_trending trio
       = (JTrending (name popular_song) (artists popular_song)
                    (int (popularity popular_song)) a c, 200%nat)
    /\ (forall s : song, In s (df_scaled trio) ->
          (popularity s <= popularity popular_song)%Q)
    /\ (forall j (s : song), (j < i)%nat -> nth_error (df_scaled trio) j = Some s ->
          (popularity s < popularity popular_song)%Q).
Proof.
  apply (most_popular_song_first_greatest trio). discriminate.
Defined.

(** X: the report fails, with status 500, exactly on an empty Catalog;
    otherwise its status is 200 and the count it shows for the artist is
    at least 1 and at most the number of rows. *)
Theorem trending_fails_iff_empty (m : model) :
  (get_trending m = (JException, 500%nat) <-> df_scaled m = [])
  /\ (snd (get_trending m) = 200%nat <-> df_scaled m <> [])
  /\ (forall a c, reported_artist (get_trending m) = Some (a, c) ->
        (1 <= c <= Z.of_nat (catalog_size m))%Z).
Proof.
  assert (D : df_scaled m = [] \/ df_scaled m <> []).
  { destruct (df_scaled m); [left|right]; congruence. }
  destruct D as [E|Hne].
  - assert (H : get_trending m = (JException, 500%nat)).
    { unfold get_trending. now rewrite E. }
    rewrite H. simpl. repeat split; try congruence; try discriminate.
  - destruct (get_trending_nonempty m Hne) as [i [ps [a [_ [_ [Hr Hin]]]]]].
    rewrite Hr. simpl. split; [split; [discriminate|contradiction]|].
    split; [split; congruence|].
    intros a' c' H. injection H as <- <-.
    pose proof (occurrences_bounds _ _ Hin) as B.
    unfold artists_column in B at 3. rewrite length_map in B.
    unfold catalog_size. lia.
Qed.

End TrendingMore.

(* ================================================================== *)
(** * More on mood recommendations *)
(* ================================================================== *)

Module MoodMore.
Import Py App Spec PyFacts SliceFacts Mood.

Lemma StronglySorted_app_inv {A} (R : A -> A -> Prop) (l1 l2 : list A) :
  StronglySorted R (l1 ++ l2) ->
  StronglySorted R l1 /\ (forall a b, In a l1 -> In b l2 -> R a b).
Proof.
  induction l1 as [|x l1 IH]; simpl; intro H.
  - split; [constructor|]. intros a b [].
  - apply StronglySorted_inv in H as [Hs Hx].
    destruct (IH Hs) as [H1 H2]. apply Forall_app in Hx as [Hx1 Hx2].
    split; [now constructor|].
    intros a b [<-|Ha] Hb; [|auto].
    rewrite Forall_forall in Hx2. auto.
Qed.

Lemma query_filter_nonempty (mood : string) (w : where_clause) :
  query_filter mood = Some w -> mood <> EmptyString.
Proof. intros H ->. discriminate. Qed.

(** X: for a known mood and a table that can be read, the endpoint
    answers 200 with the projections of the five most popular rows that
    satisfy the filter (all of them when there are fewer, none when there
    is none), the most popular first: every row that satisfies the filter
    and is left out is at most as popular as each row returned. *)
Theorem mood_returns_most_popular
        (mood : string) (w : where_clause) (songs : list song) :
  query_filter mood = Some w ->
  exists picked,
    recommend_mood (Some mood) (Some songs)
    = (JMoodRecommendations (map project picked), 200%nat)
    /\ List.length picked
       = Nat.min 5 (List.length (filter (fun s => forallb (holds s) w) songs))
    /\ StronglySorted (fun a b : song => (popularity b <= popularity a)%Q) picked
    /\ (forall s, In s picked -> In s songs /\ forallb (holds s) w = true)
    /\ (forall s u : song,
          In s picked -> In u songs -> forallb (holds u) w = true ->
          ~ In u picked -> (popularity u <= popularity s)%Q).
Proof.
  intro Hw.
  set (matching := filter (fun s => forallb (holds s) w) songs).
  set (ordered := sorted (fun s : song => popularity s) Qltb true matching).
  assert (P : Permutation ordered matching) by apply sorted_perm.
  assert (S : StronglySorted
                (descending (fun s : song => popularity s) Qltb (fun _ _ => True))
                ordered).
  { apply sorted_reverse_sorted.
    - intros a b. apply Qltb_asym.
    - intros a b c. apply Qltb_ge_trans.
    - clear. induction matching; constructor; [assumption|].
      apply Forall_forall. auto. }
  rewrite <- (firstn_skipn 5 ordered) in S.
  apply StronglySorted_app_inv in S as [S1 S2].
  exists (firstn 5 ordered). split; [|split; [|split; [|split]]].
  - pose proof (query_filter_nonempty mood w Hw) as Hne.
    unfold recommend_mood. destruct mood as [|c mood]; [congruence|].
    now rewrite Hw.
  - rewrite length_firstn. now rewrite (Permutation_length P).
  - clear -S1. induction S1 as [|a l Hs IH Ha]; constructor; [assumption|].
    eapply Forall_impl; [|exact Ha]. intros b [H _]. now apply Qltb_ge.
  - intros s Hs. apply firstn_In in Hs.
    apply (Permutation_in _ P) in Hs. now apply filter_In in Hs.
  - intros s u Hs Hu Hm Hout.
    assert (In u ordered) as Ho.
    { apply (Permutation_in _ (Permutation_sym P)). now apply filter_In. }
    rewrite <- (firstn_skipn 5 ordered) in Ho.
    apply in_app_or in Ho as [Ho|Ho]; [contradiction|].
    destruct (S2 s u Hs Ho) as [H _]. now apply Qltb_ge.
Qed.

Lemma mood_returns_most_popular_witness :
  exists picked,
    recommend_mood (Some "energetic") (Some mismatched_csv)
    = (JMoodRecommendations (map project picked), 200%nat)
    /\ List.length picked
       = Nat.min 5 (List.length
           (filter (fun s => forallb (holds s) [(Energy, OpGt, 8#10); (Tempo, OpGt, 120#1)])
                   mismatched_csv))
    /\ StronglySorted (fun a b : song => (popularity b <= popularity a)%Q) picked
    /\ (forall s, In s picked ->
          In s mismatched_csv
          /\ forallb (holds s) [(Energy, OpGt, 8#10); (Tempo, OpGt, 120#1)] = true)
    /\ (forall s u : song,
          In s picked -> In u mismatched_csv ->
          forallb (holds u) [(Energy, OpGt, 8#10); (Tempo, OpGt, 120#1)] = true ->
          ~ In u picked -> (popularity u <= popularity s)%Q).
Proof.
  apply (mood_returns_most_popular "energetic"
           [(Energy, OpGt, 8#10); (Tempo, OpGt, 120#1)] mismatched_csv).
  reflexivity.
Defined.

(** X: the status of the endpoint's answer: 400 exactly when the mood is
    missing or is none of the eleven labels, whether or not the table can
    be read; 500 exactly when the mood is a label and the query raises;
    200 exactly when the mood is a label and the table is read. *)
Theorem recommend_mood_status (mood : option string) (songs : option (list song)) :
  (snd (recommend_mood mood songs) = 400%nat
   <-> mood = None \/ exists s, mood = Some s /\ ~ In s mood_labels)
  /\ (snd (recommend_mood mood songs) = 500%nat
      <-> (exists s, mood = Some s /\ In s mood_labels) /\ songs = None)
  /\ (snd (recommend_mood mood songs) = 200%nat
      <-> (exists s, mood = Some s /\ In s mood_labels) /\ songs <> None).
Proof.
  destruct mood as [s|].
  - destruct (in_dec string_dec s mood_labels) as [Hin|Hout].
    + assert (exists w, query_filter s = Some w) as [w Hw].
      { destruct (query_filter s) eqn:E; [eauto|].
        apply query_filter_None in E. contradiction. }
      pose proof (query_filter_nonempty s w Hw) as Hne.
      assert (S : snd (recommend_mood (Some s) songs)
                  = match songs with Some _ => 200%nat | None => 500%nat end).
      { unfold recommend_mood. destruct s as [|c s]; [congruence|].
        rewrite Hw. now destruct songs. }
      rewrite S. destruct songs as [rows|].
      * repeat split; try discriminate; try congruence; eauto.
        -- intros [H|[s' [E H]]]; [discriminate|]. injection E as <-. contradiction.
        -- intros [_ H]. discriminate.
      * repeat split; try discriminate; try congruence; eauto.
        -- intros [H|[s' [E H]]]; [discriminate|]. injection E as <-. contradiction.
        -- intros [_ H]. congruence.
    + assert (S : snd (recommend_mood (Some s) songs) = 400%nat).
      { unfold recommend_mood. destruct s as [|c s]; [reflexivity|].
        now rewrite (proj2 (query_filter_None _) Hout). }
      rewrite S. repeat split; try discriminate; eauto.
      * intros [[s' [E H]] _]. injection E as <-. contradiction.
      * intros [[s' [E H]] _]. injection E as <-. contradiction.
  - simpl. repeat split; try discriminate; auto.
    + intros [[s [H _]] _]. discriminate.
    + intros [[s [H _]] _]. discriminate.
Qed.

(** ** Moods that exclude each other *)

Lemma high_energy_matches (md : mood) (s : song) :
  In md high_energy_moods -> matches (mood_name md) s = true ->
  (7#10 < energy s)%Q.
Proof.
  intros Hin H. unfold matches in H.
  destruct Hin as [<-|[<-|[<-|[<-|[]]]]]; simpl in H;
    rewrite ?andb_true_iff in H; rewrite !Qltb_lt in H; lra.
Qed.

Lemma low_energy_matches (md : mood) (s : song) :
  In md low_energy_moods -> matches (mood_name md) s = true ->
  (energy s < 6#10)%Q.
Proof.
  intros Hin H. unfold matches in H.
  destruct Hin as [<-|[<-|[<-|[<-|[<-|[<-|[]]]]]]]; simpl in H;
    rewrite ?andb_true_iff in H; rewrite !Qltb_lt in H; lra.
Qed.

(** X: no row is selected both for a mood that asks for high energy
    (energetic, angry, workout, party) and for one that asks for low
    energy (sad, calm, romantic, nostalgic, focused, chill); nor both for
    happy and for sad. *)
Theorem opposite_moods_exclude (s : song) :
  Forall (fun hi =>
    Forall (fun lo =>
      matches (mood_name hi) s && matches (mood_name lo) s = false)
      low_energy_moods) high_energy_moods
  /\ matches "happy" s && matches "sad" s = false.
Proof.
  split.
  - apply Forall_forall. intros hi Hhi. apply Forall_forall. intros lo Hlo.
    destruct (matches (mood_name hi) s) eqn:E1; [|reflexivity].
    destruct (matches (mood_name lo) s) eqn:E2; [|reflexivity].
    pose proof (high_energy_matches hi s Hhi E1).
    pose proof (low_energy_matches lo s Hlo E2). lra.
  - destruct (matches "happy" s) eqn:E1; [|reflexivity].
    destruct (matches "sad" s) eqn:E2; [|reflexivity].
    unfold matches in E1, E2. simpl in E1, E2.
    rewrite ?andb_true_iff in E1, E2. rewrite !Qltb_lt in E1, E2. lra.
Qed.

End MoodMore.

(* ================================================================== *)
(** * More on the catalog build *)
(* ================================================================== *)

Module CatalogBuildMore.
Import Py FixDatabase Spec PyFacts CatalogBuild.

(** ** Rows with the same name and artists *)

Lemma same_refl (a : track) : same_name_artists a a = true.
Proof. unfold same_name_artists. now rewrite !String.eqb_refl. Qed.

Lemma same_spec (a b : track) :
  same_name_artists a b = true <-> name a = name b /\ artists a = artists b.
Proof.
  unfold same_name_artists. now rewrite andb_true_iff, !String.eqb_eq.
Qed.

Lemma same_sym (a b : track) : same_name_artists a b = same_name_artists b a.
Proof.
  unfold same_name_artists.
  now rewrite (String.eqb_sym (name a)), (String.eqb_sym (artists a)).
Qed.

Lemma same_trans (a b c : track) :
  same_name_artists a b = true -> same_name_artists b c = true ->
  same_name_artists a c = true.
Proof. rewrite !same_spec. intros [-> ->] [-> ->]. auto. Qed.

Lemma none_same (r : track) (l : list track) :
  existsb (same_name_artists r) l = false
  <-> forall x, In x l -> same_name_artists r x = false.
Proof.
  split.
  - intros H x Hx. destruct (same_name_artists r x) eqn:E; [|reflexivity].
    assert (existsb (same_name_artists r) l = true)
      by (apply existsb_exists; eauto).
    congruence.
  - intro H. destruct (existsb (same_name_artists r) l) eqn:E; [|reflexivity].
    apply existsb_exists in E as [x [Hx E]]. rewrite (H x Hx) in E. discriminate.
Qed.

(** A row survives [drop_duplicates] exactly where it stands as the first
    row with its name and artists. *)
Lemma drop_duplicates_from_first (df seen : list track) (r : track) :
  In r (drop_duplicates_from seen df)
  <-> exists l1 l2,
        df = (l1 ++ r :: l2)%list
        /\ forall x, In x (seen ++ l1)%list -> same_name_artists r x = false.
Proof.
  revert seen. induction df as [|y df IH]; intro seen; simpl.
  - split; [tauto|]. intros [l1 [l2 [H _]]]. destruct l1; discriminate.
  - destruct (existsb (same_name_artists y) seen) eqn:E.
    + rewrite IH. apply existsb_exists in E as [z [Hz E]]. split.
      * intros [l1 [l2 [-> H]]]. exists (y :: l1), l2. split; [reflexivity|].
        intros x Hx. apply in_app_or in Hx as [Hx|[<-|Hx]].
        -- apply H, in_or_app. now left.
        -- destruct (same_name_artists r y) eqn:D; [|reflexivity].
           rewrite <- (H z) by (apply in_or_app; now left).
           symmetry. eapply same_trans; eassumption.
        -- apply H, in_or_app. now right.
      * intros [l1 [l2 [H1 H2]]]. destruct l1 as [|y' l1]; simpl in H1.
        -- injection H1 as -> ->.
           rewrite (H2 z) in E by (apply in_or_app; now left). discriminate.
        -- injection H1 as -> ->. exists l1, l2. split; [reflexivity|].
           intros x Hx. apply H2. apply in_app_or in Hx as [Hx|Hx];
             apply in_or_app; [now left|right; now right].
    + simpl. rewrite IH. split.
      * intros [<-|[l1 [l2 [-> H]]]].
        -- exists [], df. split; [reflexivity|]. rewrite app_nil_r.
           now apply none_same.
        -- exists (y :: l1), l2. split; [reflexivity|].
           intros x Hx. apply H. apply in_app_or in Hx as [Hx|[<-|Hx]].
           ++ right. apply in_or_app. now left.
           ++ now left.
           ++ right. apply in_or_app. now right.
      * intros [l1 [l2 [H1 H2]]]. destruct l1 as [|y' l1]; simpl in H1.
        -- injection H1 as -> ->. now left.
        -- injection H1 as -> ->. right. exists l1, l2. split; [reflexivity|].
           intros x [<-|Hx].
           ++ apply H2, in_or_app. right. now left.
           ++ apply H2. apply in_app_or in Hx as [Hx|Hx];
                apply in_or_app; [now left|right; now right].
Qed.

Lemma distinct_NoDup (l : list string) : distinct l = true <-> NoDup l.
Proof.
  induction l as [|x l IH]; simpl.
  - split; [constructor|reflexivity].
  - rewrite andb_true_iff, negb_true_iff, IH, NoDup_cons_iff.
    assert (existsb (String.eqb x) l = false <-> ~ In x l) as ->; [|tauto].
    split.
    + intros H Hin.
      assert (existsb (String.eqb x) l = true).
      { apply existsb_exists. exists x. split; [assumption|apply String.eqb_refl]. }
      congruence.
    + intro H. destruct (existsb (String.eqb x) l) eqn:E; [|reflexivity].
      apply existsb_exists in E as [y [Hy E]]. apply String.eqb_eq in E.
      subst y. contradiction.
Qed.

(** X: a row is written to the table only where its track stands in the
    dataset as the first row with that name and artists, and only with a
    popularity above 30; when the table is not empty, every such track is
    written.  So the table holds a track exactly when it is the first of
    its name and artists and popular enough. *)
Theorem table_keeps_first_popular_rows
        (df : list track) (table : list song) (r : song) :
  songs_table (Some df) = Some table -> table <> [] ->
  (In r table
   <-> r = add_columns (song_track r)
       /\ (30#1 < popularity r)%Q
       /\ exists l1 l2,
            df = (l1 ++ song_track r :: l2)%list
            /\ forall x, In x l1 -> same_name_artists (song_track r) x = false).
Proof.
  intros Ht Hne. simpl in Ht. injection Ht as <-.
  unfold to_sql in *.
  destruct (distinct _); [|congruence].
  rewrite in_map_iff. split.
  - intros [t [<- Hin]]. apply filter_In in Hin as [Hin Hp].
    apply Qltb_lt in Hp. split; [reflexivity|]. split; [exact Hp|].
    apply drop_duplicates_from_first in Hin. exact Hin.
  - intros [E [Hp H]]. exists (song_track r). split; [now symmetry|].
    apply filter_In. split; [|now apply Qltb_lt].
    apply drop_duplicates_from_first. exact H.
Qed.

Lemma table_keeps_first_popular_rows_witness :
  let r := sample_song "B" "Y" (2#10) (90#1) (50#1) in
  In r [r]
  <-> r = add_columns (song_track r)
      /\ (30#1 < popularity r)%Q
      /\ exists l1 l2,
           shadowed_csv = (l1 ++ song_track r :: l2)%list
           /\ forall x, In x l1 -> same_name_artists (song_track r) x = false.
Proof.
  apply (table_keeps_first_popular_rows shadowed_csv
           [sample_song "B" "Y" (2#10) (90#1) (50#1)]).
  - reflexivity.
  - discriminate.
Defined.

Lemma split_at_same_place {A} (l1 l1' l2 l2' : list A) (a b : A) :
  (l1 ++ a :: l2 = l1' ++ b :: l2')%list ->
  In b l1 \/ (l1 = l1' /\ a = b) \/ In a l1'.
Proof.
  revert l1'. induction l1 as [|x l1 IH]; intros l1' H; destruct l1' as [|y l1'];
    simpl in H; injection H as -> H.
  - right. left. auto.
  - right. right. now left.
  - left. now left.
  - destruct (IH l1' H) as [Hb|[[-> ->]|Ha]].
    + left. now right.
    + right. left. auto.
    + right. right. now right.
Qed.

(** X: duplicates are dropped before the popularity filter: when the
    first row of a name and artists has a popularity of 30 or less, the
    table has no row of that name and artists, however popular the later
    rows of the same song are. *)
Theorem first_row_decides
        (df l1 l2 : list track) (a : track) (table : list song) :
  songs_table (Some df) = Some table ->
  df = (l1 ++ a :: l2)%list ->
  (forall x, In x l1 -> same_name_artists a x = false) ->
  (popularity a <= 30#1)%Q ->
  forall r, In r table -> same_name_artists (song_track r) a = false.
Proof.
  intros Ht Hdf Hfirst Hlow r Hr.
  simpl in Ht. injection Ht as <-.
  apply to_sql_In in Hr. apply in_map_iff in Hr as [t [<- Hin]].
  apply filter_In in Hin as [Hin Hp]. apply Qltb_lt in Hp.
  apply drop_duplicates_from_first in Hin as [l1' [l2' [Hdf' Hfirst']]].
  simpl in *.
  destruct (same_name_artists t a) eqn:E; [exfalso|reflexivity].
  rewrite Hdf in Hdf'.
  destruct (split_at_same_place _ _ _ _ _ _ Hdf') as [H|[[_ <-]|H]].
  - rewrite same_sym, (Hfirst t H) in E. discriminate.
  - exact (Qle_not_lt _ _ Hlow Hp).
  - rewrite (Hfirst' a H) in E. discriminate.
Qed.

Lemma first_row_decides_witness :
  songs_table (Some shadowed_csv) = Some [sample_song "B" "Y" (2#10) (90#1) (50#1)]
  /\ same_name_artists
       (song_track (sample_song "B" "Y" (2#10) (90#1) (50#1)))
       (sample_track "A" "X" (9#10) (130#1) (10#1))
     = false.
Proof.
  split; [reflexivity|].
  apply (first_row_decides shadowed_csv []
           [sample_track "A" "X" (9#10) (130#1) (80#1);
            sample_track "B" "Y" (2#10) (90#1) (50#1)]
           (sample_track "A" "X" (9#10) (130#1) (10#1))
           [sample_song "B" "Y" (2#10) (90#1) (50#1)]).
  - reflexivity.
  - reflexivity.
  - intros x [].
  - unfold Qle. simpl. lia.
  - simpl. auto.
Defined.

(** ** Invariants of the table *)

Lemma filter_keeps_images_distinct {A B} (keep : A -> bool) (image : A -> B)
      (rows : list A) :
  NoDup (map image rows) -> NoDup (map image (filter keep rows)).
Proof.
  induction rows as [|x rows IH]; simpl; intro H; [constructor|].
  apply NoDup_cons_iff in H as [Hx Hl].
  destruct (keep x); simpl; [|auto].
  constructor; [|auto].
  intro Hin. apply Hx. apply in_map_iff in Hin as [y [E Hy]].
  apply filter_In in Hy as [Hy _]. apply in_map_iff. eauto.
Qed.

Lemma NoDup_map_injective {A B} (f : A -> B) (l : list A) (a b : A) :
  NoDup (map f l) -> In a l -> In b l -> f a = f b -> a = b.
Proof.
  induction l as [|x l IH]; simpl; intros H Ha Hb E; [destruct Ha|].
  apply NoDup_cons_iff in H as [Hx Hl].
  destruct Ha as [->|Ha], Hb as [->|Hb]; auto.
  - exfalso. apply Hx. rewrite E. now apply in_map.
  - exfalso. apply Hx. rewrite <- E. now apply in_map.
Qed.

Lemma drop_duplicates_from_keys (df seen : list track) :
  NoDup (map (fun r : track => (name r, artists r)) (drop_duplicates_from seen df)).
Proof.
  revert seen. induction df as [|y df IH]; intro seen; simpl; [constructor|].
  destruct (existsb (same_name_artists y) seen); [apply IH|].
  simpl. constructor; [|apply IH].
  intro Hin. apply in_map_iff in Hin as [r [E Hr]].
  apply drop_duplicates_from_first in Hr as [l1 [l2 [_ H]]].
  assert (same_name_artists r y = false) as D by (apply H; now left).
  assert (same_name_artists r y = true) as T.
  { apply same_spec. injection E as -> ->. auto. }
  congruence.
Qed.

(** X: whatever the dataset, the table the script leaves has no two rows
    with the same title and no two rows with the same name and artists,
    and every row has a play count of 0 and the title
    [name + " by " + artists]. *)
Theorem table_invariants (csv : option (list track)) (table : list song) :
  songs_table csv = Some table ->
  NoDup (map title table)
  /\ NoDup (map (fun r : song => (name r, artists r)) table)
  /\ Forall (fun r : song =>
               play_count r = 0%Z
               /\ title r = name r ++ " by " ++ artists r) table.
Proof.
  destruct csv as [df|]; [|discriminate]. simpl. intro H. injection H as <-.
  unfold to_sql.
  destruct (distinct _) eqn:D; [|repeat split; constructor].
  split; [now apply distinct_NoDup|]. split.
  - rewrite map_map. simpl.
    apply filter_keeps_images_distinct. apply drop_duplicates_from_keys.
  - apply Forall_forall. intros r Hr.
    apply in_map_iff in Hr as [t [<- _]]. simpl. auto.
Qed.

Lemma table_invariants_witness :
  let table := [sample_song "B" "Y" (2#10) (90#1) (50#1)] in
  NoDup (map title table)
  /\ NoDup (map (fun r : song => (name r, artists r)) table)
  /\ Forall (fun r : song =>
               play_count r = 0%Z
               /\ title r = name r ++ " by " ++ artists r) table.
Proof.
  apply (table_invariants (Some shadowed_csv)). reflexivity.
Defined.

(** X: the primary key on [title] is all or nothing: when two different
    rows that pass deduplication and the popularity filter have the same
    title, the insertion fails as a whole and the table is left empty. *)
Theorem title_collision_empties_table
        (df : list track) (t1 t2 : track) (table : list song) :
  songs_table (Some df) = Some table ->
  In t1 (filter_popularity (drop_duplicates df)) ->
  In t2 (filter_popularity (drop_duplicates df)) ->
  t1 <> t2 ->
  name t1 ++ " by " ++ artists t1 = name t2 ++ " by " ++ artists t2 ->
  table = [].
Proof.
  intros H H1 H2 Hne E. simpl in H. injection H as <-.
  unfold to_sql. destruct (distinct _) eqn:D; [exfalso|reflexivity].
  apply distinct_NoDup in D. rewrite map_map in D. simpl in D.
  apply Hne. exact (NoDup_map_injective _ _ t1 t2 D H1 H2 E).
Qed.

Lemma title_collision_empties_table_witness :
  songs_table (Some colliding_csv) = Some [] /\ @nil song = [].
Proof.
  split; [reflexivity|].
  apply (title_collision_empties_table colliding_csv
           (sample_track "A by B" "C" (9#10) (130#1) (40#1))
           (sample_track "A" "B by C" (2#10) (90#1) (50#1))).
  - reflexivity.
  - simpl. auto.
  - simpl. auto.
  - discriminate.
  - reflexivity.
Defined.

End CatalogBuildMore.

(* ================================================================== *)
(** * Nearest neighbours, and the two programs together *)
(* ================================================================== *)

Module Together.
Import Py App FixDatabase Spec PyFacts SliceFacts IndexFacts Recommend.
Import RecommendMore Mood MoodMore CatalogBuild CatalogBuildMore.

Lemma enumerate_In (row : list Q) (j : nat) (s : Q) :
  In (j, s) (enumerate row) <-> nth_error row j = Some s.
Proof.
  unfold enumerate. rewrite enumerate_from_In, Nat.sub_0_r.
  split; [tauto|]. intro H. split; [lia|assumption].
Qed.

(** A self-similarity that is strictly the greatest score of its row
    comes first in the ranking. *)
Lemma ranked_head_strictly_best (row : list Q) (idx : nat) (self : Q) :
  nth_error row idx = Some self ->
  (forall j s, j <> idx -> nth_error row j = Some s -> (s < self)%Q) ->
  exists rest, ranked row = (idx, self) :: rest.
Proof.
  intros Hself Hbest.
  pose proof (ranked_perm row) as P.
  pose proof (ranked_ranks_before row) as S.
  assert (Hin : In (idx, self) (ranked row)).
  { apply (Permutation_in _ (Permutation_sym P)). now apply enumerate_In. }
  destruct (ranked row) as [|[j s] rest] eqn:E; [destruct Hin|].
  exists rest. f_equal.
  assert (Hj : nth_error row j = Some s).
  { apply enumerate_In. apply (Permutation_in _ P). now left. }
  destruct (Nat.eq_dec j idx) as [->|D]; [congruence|exfalso].
  specialize (Hbest j s D Hj).
  destruct Hin as [Hin|Hin]; [congruence|].
  apply StronglySorted_inv in S as [_ S]. rewrite Forall_forall in S.
  destruct (S _ Hin) as [L|[Q _]]; simpl in *; lra.
Qed.

(** X: when the self-similarity is strictly the greatest score of the
    row, the function returns the nearest neighbours of the query: every
    other song that is not returned is at most as similar to the query as
    each song that is. *)
Theorem recommendations_are_most_similar
        (m : model) (t : string) (top_n : Z) (idx : nat) (row : list Q) (self : Q) :
  well_formed m ->
  nth_error (titles m) idx = Some t ->
  nth_error (similarity_matrix m) idx = Some row ->
  nth_error row idx = Some self ->
  (forall j s, j <> idx -> nth_error row j = Some s -> (s < self)%Q) ->
  (0 <= top_n)%Z ->
  exists recs,
    get_recommendations m t top_n = Titles recs
    /\ forall p q sp sq,
         In p (map fst recs) -> nth_error row p = Some sp ->
         q <> idx -> ~ In q (map fst recs) -> nth_error row q = Some sq ->
         (sq <= sp)%Q.
Proof.
  intros Hwf Ht Hrow Hself Hbest Hn.
  destruct (get_recommendations_present m t Hwf (nth_error_In _ _ Ht))
    as [idx' [row' [Ht' [Hrow' [_ Hall]]]]].
  assert (idx' = idx) as ->.
  { apply (proj1 (NoDup_nth_error (titles m)) (proj1 Hwf)); [|congruence].
    apply nth_error_Some. congruence. }
  assert (row' = row) as -> by congruence.
  destruct (Hall top_n) as [recs [Hrecs [Hpos _]]].
  exists recs. split; [assumption|].
  destruct (ranked_head_strictly_best row idx self Hself Hbest) as [rest E].
  pose proof (ranked_perm row) as P.
  pose proof (ranked_ranks_before row) as S.
  rewrite E in P, S. apply StronglySorted_inv in S as [S _].
  rewrite slice_top_eq, E in Hpos by assumption. simpl tl in Hpos.
  rewrite <- (firstn_skipn (Z.to_nat top_n) rest) in S.
  apply StronglySorted_app_inv in S as [_ S].
  intros p q sp sq Hp Hsp Hq Hout Hsq.
  rewrite Hpos in Hp, Hout.
  apply in_map_iff in Hp as [[p' sp'] [Ep Hp]]. simpl in Ep. subst p'.
  assert (sp' = sp) as ->.
  { assert (In (p, sp') (enumerate row)) as H.
    { apply (Permutation_in _ P). right. eapply firstn_In, Hp. }
    apply enumerate_In in H. congruence. }
  assert (Hqr : In (q, sq) rest).
  { assert (In (q, sq) ((idx, self) :: rest)) as H.
    { apply (Permutation_in _ (Permutation_sym P)). now apply enumerate_In. }
    destruct H as [H|H]; [congruence|assumption]. }
  rewrite <- (firstn_skipn (Z.to_nat top_n) rest) in Hqr.
  apply in_app_or in Hqr as [Hqr|Hqr].
  - exfalso. apply Hout. apply in_map_iff. exists (q, sq). auto.
  - destruct (S _ _ Hp Hqr) as [L|[Q _]]; simpl in *; lra.
Qed.

Lemma recommendations_are_most_similar_witness :
  exists recs,
    get_recommendations trio "A by X" 1 = Titles recs
    /\ forall p q sp sq,
         In p (map fst recs) -> nth_error [1; 1#2; 1#3]%Q p = Some sp ->
         q <> 0%nat -> ~ In q (map fst recs) ->
         nth_error [1; 1#2; 1#3]%Q q = Some sq ->
         (sq <= sp)%Q.
Proof.
  apply (recommendations_are_most_similar trio "A by X" 1 0 [1; 1#2; 1#3]%Q 1%Q).
  - exact trio_well_formed.
  - reflexivity.
  - reflexivity.
  - reflexivity.
  - intros j s Hj H.
    destruct j as [|[|[|j]]]; simpl in H; try congruence;
      try (injection H as <-; reflexivity).
    destruct j; discriminate.
  - lia.
Defined.

(** X: the two programs together: when the mood endpoint reads the table
    that the build script wrote, every row it returns has the title
    [name + " by " + artists], and no two rows returned have the same
    title. *)
Theorem mood_rows_from_built_table
        (csv : option (list track)) (table : list song) (mood : string)
        (rows : list (string * string * string)) :
  songs_table csv = Some table ->
  recommend_mood (Some mood) (Some table) = (JMoodRecommendations rows, 200%nat) ->
  Forall (fun r => snd r = fst (fst r) ++ " by " ++ snd (fst r)) rows
  /\ NoDup (map snd rows).
Proof.
  intros Ht Hr.
  assert (Hfmt : forall r : song, In r table ->
                   title r = name r ++ " by " ++ artists r).
  { destruct csv as [df|]; [|discriminate]. simpl in Ht. injection Ht as <-.
    intros r Hin. apply to_sql_In in Hin.
    apply in_map_iff in Hin as [x [<- _]]. reflexivity. }
  assert (Hnd : NoDup (map title table)).
  { destruct csv as [df|]; [|discriminate]. simpl in Ht. injection Ht as <-.
    unfold to_sql. destruct (distinct _) eqn:D; [|constructor].
    now apply distinct_NoDup. }
  unfold recommend_mood in Hr. destruct mood as [|c mood]; [discriminate|].
  destruct (query_filter (String c mood)) as [w|]; [|discriminate].
  injection Hr as <-. split.
  - apply Forall_forall. intros r Hin.
    apply select_songs_In in Hin as [s [Hs [-> _]]]. simpl. auto.
  - unfold select_songs. rewrite map_map. cbn [snd].
    rewrite <- firstn_map. apply NoDup_firstn.
    eapply Permutation_NoDup.
    + apply Permutation_map, Permutation_sym, sorted_perm.
    + now apply filter_keeps_images_distinct.
Qed.

Lemma mood_rows_from_built_table_witness :
  Forall (fun r => snd r = fst (fst r) ++ " by " ++ snd (fst r))
         [("A", "X", "A by X")]
  /\ NoDup (map snd [("A", "X", "A by X")]).
Proof.
  apply (mood_rows_from_built_table
           (Some [sample_track "A" "X" (9#10) (130#1) (80#1);
                  sample_track "B" "Y" (2#10) (90#1) (50#1)])
           [sample_song "A" "X" (9#10) (130#1) (80#1);
            sample_song "B" "Y" (2#10) (90#1) (50#1)]
           "energetic").
  - reflexivity.
  - reflexivity.
Defined.

End Together.
